(** * Paired-comparison subjective models of sureal

    A shallow embedding of [sureal/pc_subjective_model.py]: the
    Bradley-Terry Newton-Raphson solver (BTNR), the Bradley-Terry
    fixed-point maximum-likelihood solver (BTMLE) and the Thurstone
    maximum-likelihood solver.

    Numbers.  A numpy float is modelled by [num]: a real number, or one of
    the special values [NaN], [PInf], [NInf] that numpy produces for
    [0/0], [x/0], [log 0], and the square root or logarithm of a negative
    number.  Arithmetic on finite values is exact (no rounding, no
    overflow) and zero carries no sign.  The loop of BTMLE is embedded a
    second time in binary64, with every operation rounded, to tell what
    holds of the mathematics from what holds of the stored numbers.

    Arrays.  A numpy array is an index function together with its shape.

    Control.  The two [while] loops carry a fuel argument; [OutOfFuel] is the
    outcome of a loop that is still running when the fuel is spent.
    Python exceptions are the [Raise] outcome.

    Libraries.  [scipy.linalg.norm] checks its argument and raises on [NaN]
    and infinities; the pseudo-inverse is the matrix the Moore-Penrose
    equations determine; [scipy.stats.norm.cdf] is the standard normal
    distribution function; [scipy.optimize.minimize] is a parameter.  The
    progress line written in each pass and the pause after it are left out,
    except for the norm the line evaluates. *)

From Stdlib Require Import Reals Lra Lia List String Bool Arith ClassicalEpsilon.
From Stdlib Require PrimFloat FloatOps SpecFloat Uint63 QArith.
Import ListNotations.
Open Scope R_scope.

(** ** Numbers *)

Inductive num : Type :=
| NaN : num
| NInf : num
| PInf : num
| Fin : R -> num.

Module Num.

Definition finiteb (a : num) : bool :=
  match a with Fin _ => true | _ => false end.

Definition neg (a : num) : num :=
  match a with
  | NaN => NaN
  | NInf => PInf
  | PInf => NInf
  | Fin x => Fin (- x)
  end.

Definition add (a b : num) : num :=
  match a, b with
  | NaN, _ | _, NaN => NaN
  | PInf, NInf | NInf, PInf => NaN
  | PInf, _ | _, PInf => PInf
  | NInf, _ | _, NInf => NInf
  | Fin x, Fin y => Fin (x + y)
  end.

Definition sub (a b : num) : num := add a (neg b).

(** [inf_times pos x] is [+inf * x] when [pos], [-inf * x] otherwise. *)
Definition inf_times (pos : bool) (x : R) : num :=
  if Req_dec_T x 0 then NaN
  else if Rlt_dec 0 x then (if pos then PInf else NInf)
       else (if pos then NInf else PInf).

Definition mul (a b : num) : num :=
  match a, b with
  | NaN, _ | _, NaN => NaN
  | Fin x, Fin y => Fin (x * y)
  | PInf, Fin y | Fin y, PInf => inf_times true y
  | NInf, Fin y | Fin y, NInf => inf_times false y
  | PInf, PInf | NInf, NInf => PInf
  | PInf, NInf | NInf, PInf => NInf
  end.

(** numpy's true division: [0/0] is [NaN], [x/0] is an infinity. *)
Definition div (a b : num) : num :=
  match a, b with
  | NaN, _ | _, NaN => NaN
  | Fin x, Fin y =>
      if Req_dec_T y 0
      then (if Req_dec_T x 0 then NaN else if Rlt_dec 0 x then PInf else NInf)
      else Fin (x / y)
  | Fin _, PInf | Fin _, NInf => Fin 0
  | PInf, Fin y => if Rlt_dec y 0 then NInf else PInf
  | NInf, Fin y => if Rlt_dec y 0 then PInf else NInf
  | _, _ => NaN
  end.

(** [x**2] on a float array. *)
Definition sqr (a : num) : num := mul a a.

Definition sqrt (a : num) : num :=
  match a with
  | NaN | NInf => NaN
  | PInf => PInf
  | Fin x => if Rlt_dec x 0 then NaN else Fin (R_sqrt.sqrt x)
  end.

Definition exp (a : num) : num :=
  match a with
  | NaN => NaN
  | NInf => Fin 0
  | PInf => PInf
  | Fin x => Fin (Rtrigo_def.exp x)
  end.

Definition log (a : num) : num :=
  match a with
  | NaN | NInf => NaN
  | PInf => PInf
  | Fin x => if Rlt_dec x 0 then NaN
             else if Req_dec_T x 0 then NInf else Fin (ln x)
  end.

(** [a > b]; every comparison with [NaN] is false. *)
Definition gtb (a b : num) : bool :=
  match a, b with
  | NaN, _ | _, NaN => false
  | PInf, PInf => false
  | PInf, _ => true
  | _, PInf => false
  | NInf, _ => false
  | Fin _, NInf => true
  | Fin x, Fin y => if Rlt_dec y x then true else false
  end.

(** [np.nansum] reads a missing observation as zero. *)
Definition nan_to_zero (a : num) : num :=
  match a with NaN => Fin 0 | _ => a end.

(** Left-to-right sum of [f 0 .. f (n-1)], starting from zero. *)
Fixpoint sum_upto (n : nat) (f : nat -> num) : num :=
  match n with
  | O => Fin 0
  | S k => add (sum_upto k f) (f k)
  end.

(** The same sum over the reals, for the finite case. *)
Fixpoint rsum (n : nat) (g : nat -> R) : R :=
  match n with
  | O => 0
  | S k => rsum k g + g k
  end.

End Num.

(** ** Arrays *)

Record ndarray1 : Type := mk1 { len : nat; at1 : nat -> num }.
Record ndarray2 : Type := mk2 { rows : nat; cols : nat; at2 : nat -> nat -> num }.
Record ndarray3 : Type :=
  mk3 { dim0 : nat; dim1 : nat; dim2 : nat; at3 : nat -> nat -> nat -> num }.

(** [list(a)] for a one-dimensional array. *)
Definition tolist (a : ndarray1) : list num := map (at1 a) (seq 0 (len a)).

(** [np.nansum(a, axis=2)] *)
Definition nansum_axis2 (a : ndarray3) : ndarray2 :=
  mk2 (dim0 a) (dim1 a)
      (fun i j => Num.sum_upto (dim2 a) (fun k => Num.nan_to_zero (at3 a i j k))).

(** A two-dimensional array given by its rows; entries outside are zero.
    Used to write concrete matrices. *)
Definition of_rows (r c : nat) (l : list (list R)) : ndarray2 :=
  mk2 r c (fun i j => Fin (nth j (nth i l []) 0)).

(** ** Python values, exceptions, outcomes *)

Inductive pyval : Type :=
| PyNone : pyval
| PyBool : bool -> pyval
| PyInt : nat -> pyval
| PyStr : string -> pyval.

(** Python truth value. *)
Definition truthy (v : pyval) : bool :=
  match v with
  | PyNone => false
  | PyBool b => b
  | PyInt k => negb (Nat.eqb k 0)
  | PyStr s => negb (String.eqb s EmptyString)
  end.

(** Keyword arguments: a dictionary from names to values. *)
Definition kwargs : Type := list (string * pyval).

Fixpoint kw_get (kw : kwargs) (key : string) : option pyval :=
  match kw with
  | [] => None
  | (k, v) :: rest => if String.eqb k key then Some v else kw_get rest key
  end.

Inductive exn : Type :=
| AssertionError
| ZeroDivisionError
| ValueError
| LinAlgError.

Inductive outcome (A : Type) : Type :=
| Ok : A -> outcome A
| Raise : exn -> outcome A
| OutOfFuel : outcome A.

Arguments Ok {A} _.
Arguments Raise {A} _.
Arguments OutOfFuel {A}.

Definition bind {A B : Type} (m : outcome A) (k : A -> outcome B) : outcome B :=
  match m with
  | Ok a => k a
  | Raise e => Raise e
  | OutOfFuel => OutOfFuel
  end.

Notation "x <- m ;; k" := (bind m (fun x => k))
  (at level 61, m at next level, right associativity).

(** [assert c] *)
Definition py_assert (c : bool) : outcome unit :=
  if c then Ok tt else Raise AssertionError.

(** The record returned by every [_run_modeling]. *)
Record result : Type :=
  mk_result { quality_scores : list num; quality_scores_std : option (list num) }.

(** ** Library functions: scipy.linalg.norm, pinv, numpy.mean, numpy.std *)

Definition all_finite (n : nat) (f : nat -> num) : bool :=
  forallb (fun i => Num.finiteb (f i)) (seq 0 n).

(** [scipy.linalg.norm] of a one-dimensional array: it checks its input
    ([check_finite=True]) and raises [ValueError] on [NaN] or an infinity;
    otherwise the Euclidean norm. *)
Definition linalg_norm (a : ndarray1) : outcome num :=
  if all_finite (len a) (at1 a)
  then Ok (Num.sqrt (Num.sum_upto (len a) (fun i => Num.sqr (at1 a i))))
  else Raise ValueError.

(** Real matrices as index functions, for the pseudo-inverse. *)
Definition rmat : Type := nat -> nat -> R.

Definition rmul (k : nat) (A B : rmat) : rmat :=
  fun i j => Num.rsum k (fun l => A i l * B l j).

(** The four Penrose equations for [X] (n x m) to be the Moore-Penrose
    pseudo-inverse of [A] (m x n). *)
Definition penrose (m n : nat) (A X : rmat) : Prop :=
  (forall i j, (i < m)%nat -> (j < n)%nat ->
     rmul m (rmul n A X) A i j = A i j) /\
  (forall i j, (i < n)%nat -> (j < m)%nat ->
     rmul n (rmul m X A) X i j = X i j) /\
  (forall i j, (i < m)%nat -> (j < m)%nat ->
     rmul n A X i j = rmul n A X j i) /\
  (forall i j, (i < n)%nat -> (j < n)%nat ->
     rmul m X A i j = rmul m X A j i).

Definition pinv_real (m n : nat) (A : rmat) : rmat :=
  epsilon (inhabits (fun _ _ => 0)) (penrose m n A).

Definition real_of (a : num) : R :=
  match a with Fin x => x | _ => 0 end.

Definition all_finite2 (a : ndarray2) : bool :=
  forallb (fun i => all_finite (cols a) (at2 a i)) (seq 0 (rows a)).

(** The pseudo-inverse of an array; [err] is what the library raises on an
    input that is not finite: [ValueError] for [scipy.linalg.pinv] (which
    checks its input), [LinAlgError] for [numpy.linalg.pinv] (whose
    decomposition fails). *)
Definition pinv_with (err : exn) (a : ndarray2) : outcome ndarray2 :=
  if all_finite2 a
  then Ok (mk2 (cols a) (rows a)
             (fun i j =>
                Fin (pinv_real (rows a) (cols a)
                       (fun k l => real_of (at2 a k l)) i j)))
  else Raise err.

Definition scipy_pinv : ndarray2 -> outcome ndarray2 := pinv_with ValueError.
Definition numpy_pinv : ndarray2 -> outcome ndarray2 := pinv_with LinAlgError.

(** [np.mean] and [np.std] (population standard deviation). *)
Definition np_mean (a : ndarray1) : num :=
  Num.div (Num.sum_upto (len a) (at1 a)) (Fin (INR (len a))).

Definition np_std (a : ndarray1) : num :=
  let mu := np_mean a in
  Num.sqrt (np_mean (mk1 (len a) (fun i => Num.sqr (Num.sub (at1 a i) mu)))).

(** [sys.float_info.max] and the loops' threshold. *)
Definition float_max : R := (2 - / 2 ^ 52) * 2 ^ 1023.
Definition DELTA_THR : num := Fin (/ 100000000).

(** ** BTNR: BradleyTerryNewtonRaphsonPairedCompSubjectiveModel *)

Module BTNR.

Record state : Type :=
  mk_state { iteration : nat;
             gamma : nat -> num;
             change : ndarray1;
             y : nat -> nat -> num;
             rus : nat -> nat -> num }.

Section Fit.

Variable wm : ndarray2.

Definition n : nat := rows wm.
Definition nmo : nat := (n - 1)%nat.

  (** [gm = wm[0:nmo, :] + wm[:, 0:nmo].transpose()] *)
Definition gm (i j : nat) : num := Num.add (at2 wm i j) (at2 wm j i).

  (** [wins = np.sum(wm[0:nmo, :], axis=1)] *)
Definition wins (i : nat) : num := Num.sum_upto n (fun j => at2 wm i j).

  (** [gind = (gm > 0)]; [squaregind] is [gind] on the first [nmo] columns. *)
Definition gind (i j : nat) : bool := Num.gtb (gm i j) (Fin 0).

Definition init : state :=
    mk_state 0 (fun _ => Fin 0) (mk1 1 (fun _ => Fin float_max))
             (fun _ _ => Fin 0) (fun _ _ => Fin 0).

  (** [pi = np.exp(gamma)] *)
Definition pi (st : state) (i : nat) : num := Num.exp (gamma st i).

  (** [rus[gind] = np.divide(pius[gind], pius[gind] + piust[gind])], where
      [pius[i,j] = pi[i]] and [piust[i,j] = pi[j]]. *)
Definition rus_new (st : state) (i j : nat) : num :=
    if gind i j
    then Num.div (pi st i) (Num.add (pi st i) (pi st j))
    else rus st i j.

  (** [y[gind] = np.multiply(gm[gind], rus[gind])] *)
Definition y_first (st : state) (i j : nat) : num :=
    if gind i j then Num.mul (gm i j) (rus_new st i j) else y st i j.

  (** [d2Q = - np.sum(y, axis=1)] and [dL = wins + d2Q] *)
Definition d2Q (st : state) (i : nat) : num :=
    Num.neg (Num.sum_upto n (fun j => y_first st i j)).

Definition dL (st : state) (i : nat) : num := Num.add (wins i) (d2Q st i).

  (** [y[gind] = np.multiply(y[gind], 1. - rus[gind])] *)
Definition y_second (st : state) (i j : nat) : num :=
    if gind i j
    then Num.mul (y_first st i j) (Num.sub (Fin 1) (rus_new st i j))
    else y_first st i j.

  (** [d2L = -np.diag(np.sum(y, axis=1))] followed by
      [d2L[squaregind] = y[:, :-1][squaregind]] *)
Definition d2L (st : state) : ndarray2 :=
    mk2 nmo nmo
        (fun i j =>
           if gind i j then y_second st i j
           else Num.neg (if Nat.eqb i j
                         then Num.sum_upto n (fun k => y_second st i k)
                         else Fin 0)).

  (** [change = np.matmul(P, dL)] followed by
      [change = np.hstack([change, np.array([0])])] *)
Definition change_new (P : ndarray2) (st : state) : ndarray1 :=
    mk1 n (fun i =>
             if Nat.ltb i nmo
             then Num.sum_upto nmo (fun k => Num.mul (at2 P i k) (dL st k))
             else Fin 0).

  (** One pass through the body of the [while] loop. *)
Definition body (st : state) : outcome state :=
    P <- scipy_pinv (d2L st) ;;
    let change1 := change_new P st in
    (* gamma -= change *)
    let gamma1 := fun i => Num.sub (gamma st i) (at1 change1 i) in
    (* the progress message evaluates linalg.norm(change) *)
    _ <- linalg_norm change1 ;;
    Ok (mk_state (S (iteration st)) gamma1 change1 (y_second st) (rus_new st)).

  (** [while linalg.norm(change) > DELTA_THR: ...] *)
Fixpoint loop (fuel : nat) (st : state) : outcome state :=
    c <- linalg_norm (change st) ;;
    if Num.gtb c DELTA_THR
    then match fuel with
         | O => OutOfFuel
         | S fuel' => st' <- body st ;; loop fuel' st'
         end
    else Ok st.

  (** [scores = gamma; scores[-1] = 0.0] *)
Definition raw_scores (st : state) : ndarray1 :=
    mk1 n (fun i => if Nat.eqb i (n - 1) then Fin 0 else gamma st i).

  (** [kwargs['zscore_output'] if 'zscore_output' in kwargs and
       'zscore_output' is not None else False]; the second test compares a
      string literal with [None] and is always true. *)
Definition zscore_output (kw : kwargs) : pyval :=
    match kw_get kw "zscore_output" with
    | Some v => v
    | None => PyBool false
    end.

Definition zscore (s : ndarray1) : ndarray1 :=
    let scores_mean := np_mean s in
    let scores_std := np_std s in
    mk1 (len s) (fun i => Num.div (Num.sub (at1 s i) scores_mean) scores_std).

  (** The body of [_run_modeling] after [wm] has been aggregated. *)
Definition fit (kw : kwargs) (fuel : nat) : outcome result :=
    _ <- py_assert (Nat.eqb (rows wm) (cols wm)) ;;
    (* y = np.zeros([nmo, n]) refuses a negative dimension *)
    _ <- (if Nat.eqb n 0 then Raise ValueError else Ok tt) ;;
    st <- loop fuel init ;;
    let scores := raw_scores st in
    let scores := if truthy (zscore_output kw) then zscore scores else scores in
    Ok (mk_result (tolist scores) None).

End Fit.

Definition _run_modeling (opinion_score_3darray : ndarray3) (kw : kwargs)
  (fuel : nat) : outcome result :=
  fit (nansum_axis2 opinion_score_3darray) kw fuel.

End BTNR.

(** ** BTMLE: BradleyTerryMlePairedCompSubjectiveModel *)

Module BTMLE.

Record state : Type :=
  mk_state { iteration : nat; p : nat -> num; change : num }.

Section Fit.

Variable alpha : ndarray2.

Definition M : nat := rows alpha.

  (** [n = alpha + alpha.T] *)
Definition n (i j : nat) : num := Num.add (at2 alpha i j) (at2 alpha j i).

  (** [np.sum(alpha, axis=1)] *)
Definition row_total (i : nat) : num := Num.sum_upto M (fun j => at2 alpha i j).

  (** [pp = np.tile(p, (M, 1)) + np.tile(p, (M, 1)).T] *)
Definition pp (p : nat -> num) (i j : nat) : num := Num.add (p j) (p i).

  (** [p = np.sum(alpha, axis=1) / np.sum(n / pp, axis=1)] *)
Definition unnormalized (p : nat -> num) (i : nat) : num :=
    Num.div (row_total i) (Num.sum_upto M (fun j => Num.div (n i j) (pp p i j))).

  (** ... followed by [p = p / np.sum(p)] *)
Definition update (p : nat -> num) (i : nat) : num :=
    Num.div (unnormalized p i) (Num.sum_upto M (unnormalized p)).

  (** [p = 1.0 / M * np.ones(M)] *)
Definition p0 (i : nat) : num := Num.mul (Fin (1 / INR M)) (Fin 1).

Definition init : state := mk_state 0 p0 (Fin float_max).

  (** One pass through the body of the [while] loop. *)
Definition body (st : state) : outcome state :=
    let p_prev := p st in
    let p1 := update p_prev in
    change1 <- linalg_norm (mk1 M (fun i => Num.sub (p1 i) (p_prev i))) ;;
    (* the progress message evaluates linalg.norm(change) *)
    _ <- linalg_norm (mk1 1 (fun _ => change1)) ;;
    Ok (mk_state (S (iteration st)) p1 change1).

  (** [while change > DELTA_THR: ...] *)
Fixpoint loop (fuel : nat) (st : state) : outcome state :=
    if Num.gtb (change st) DELTA_THR
    then match fuel with
         | O => OutOfFuel
         | S fuel' => st' <- body st ;; loop fuel' st'
         end
    else Ok st.

  (** [lbda_ii = np.sum(-alpha / np.tile(p, (M, 1)).T**2 + n / pp**2, axis=1)] *)
Definition lbda_ii (p : nat -> num) (i : nat) : num :=
    Num.sum_upto M (fun j =>
      Num.add (Num.div (Num.neg (at2 alpha i j)) (Num.sqr (p i)))
              (Num.div (n i j) (Num.sqr (pp p i j)))).

  (** [lbda_ij = n / pp*2]: the quotient times two. *)
Definition lbda_ij (p : nat -> num) (i j : nat) : num :=
    Num.mul (Num.div (n i j) (pp p i j)) (Fin 2).

  (** [lbda = lbda_ij + np.diag(lbda_ii)] *)
Definition lbda (p : nat -> num) (i j : nat) : num :=
    Num.add (lbda_ij p i j) (if Nat.eqb i j then lbda_ii p i else Fin 0).

  (** [np.vstack([np.hstack([-lbda, ones([M,1])]),
                  np.hstack([ones([1,M]), [[0]]])])] *)
Definition bordered (p : nat -> num) : ndarray2 :=
    mk2 (S M) (S M)
        (fun i j =>
           if Nat.ltb i M
           then (if Nat.ltb j M then Num.neg (lbda p i j) else Fin 1)
           else (if Nat.ltb j M then Fin 1 else Fin 0)).

  (** The variances [np.diagonal(cova)[:-1]] read off a covariance array. *)
Definition vari (cova : ndarray2) (i : nat) : num := at2 cova i i.

  (** The statements after the loop. *)
Definition finish (st : state) : outcome result :=
    cova <- numpy_pinv (bordered (p st)) ;;
    let stdv := fun i => Num.sqrt (vari cova i) in
    let scores := mk1 M (fun i => Num.log (p st i)) in
    let scores_std := mk1 M (fun i => Num.div (stdv i) (p st i)) in
    Ok (mk_result (tolist scores) (Some (tolist scores_std))).

  (** The body of [_run_modeling] after [alpha] has been aggregated.
      [kw] is accepted and never read. *)
Definition fit (kw : kwargs) (fuel : nat) : outcome result :=
    _ <- py_assert (Nat.eqb (rows alpha) (cols alpha)) ;;
    (* 1.0 / M on Python numbers *)
    _ <- (if Nat.eqb M 0 then Raise ZeroDivisionError else Ok tt) ;;
    st <- loop fuel init ;;
    finish st.

End Fit.

Definition _run_modeling (opinion_score_3darray : ndarray3) (kw : kwargs)
  (fuel : nat) : outcome result :=
  fit (nansum_axis2 opinion_score_3darray) kw fuel.

End BTMLE.

(** ** The standard normal distribution function, [scipy.stats.norm.cdf] *)

Definition gauss (t : R) : R := Rtrigo_def.exp (- (t * t) / 2).

Lemma gauss_continuity : continuity gauss.
Proof.
  apply derivable_continuous.
  unfold gauss. intro t. reg.
Qed.

Definition gauss_integrable (a b : R) : Riemann_integrable gauss a b :=
  match Rle_dec a b with
  | left h =>
      continuity_implies_RiemannInt h (fun t _ => gauss_continuity t)
  | right h =>
      RiemannInt_P1
        (continuity_implies_RiemannInt
           (Rlt_le _ _ (Rnot_le_lt _ _ h)) (fun t _ => gauss_continuity t))
  end.

(** [Phi x = 1/2 + (integral of gauss from 0 to x) / sqrt(2 pi)] *)
Definition Phi (x : R) : R :=
  1 / 2 + RiemannInt (gauss_integrable 0 x) / R_sqrt.sqrt (2 * PI).

Definition norm_cdf (a : num) : num :=
  match a with
  | NaN => NaN
  | NInf => Fin 0
  | PInf => Fin 1
  | Fin x => Fin (Phi x)
  end.

(** ** Thurstone: ThurstoneMlePairedCompSubjectiveModel *)

Module Thurstone.

(** What [scipy.optimize.minimize] returns: the fields the code reads. *)
Record OptimizeResult : Type := mk_ret { success : bool; x : ndarray1 }.

(** [np.sum] of a two-dimensional array. *)
Definition sum2 (r c : nat) (f : nat -> nat -> num) : num :=
  Num.sum_upto r (fun i => Num.sum_upto c (f i)).

(** [log_likelihood_function(v, alpha, M)] *)
Definition log_likelihood_function (v : ndarray1) (alpha : ndarray2) (M : nat)
  : outcome num :=
  if Nat.eqb M 0 then Raise ZeroDivisionError
  else
    let epsilon := Fin (/ 100000000 / INR M) in
    (* np.tile(v, (M, 1)) - np.tile(v, (M, 1)).T *)
    let d := fun i j => Num.sub (at1 v j) (at1 v i) in
    let mtx := fun i j =>
      Num.add
        (Num.mul (at2 alpha i j)
                 (Num.log (Num.add (norm_cdf (d i j)) epsilon)))
        (Num.mul (at2 alpha j i)
                 (Num.log (Num.add (Num.sub (Fin 1) (norm_cdf (d i j))) epsilon))) in
    Ok (sum2 M M mtx).

Section Fit.

  (** [scipy.optimize.minimize(fun, x0, method='SLSQP', jac='2-point',
      options={'ftol': 1e-8, 'disp': True, 'maxiter': 1000})]: the optimizer is
      outside the repository and is left abstract. *)
Variable minimize : (ndarray1 -> outcome num) -> ndarray1 -> outcome OptimizeResult.

Variable alpha : ndarray2.

Definition M : nat := rows alpha.

  (** [llf_partial = partial(cls.log_likelihood_function, alpha=alpha, M=M)] *)
Definition llf_partial (v : ndarray1) : outcome num :=
    log_likelihood_function v alpha M.

Definition v0 : ndarray1 := mk1 M (fun _ => Fin 0).

  (** The body of [_run_modeling] after [alpha] has been aggregated.
      [kw] is accepted and never read. *)
Definition fit (kw : kwargs) : outcome result :=
    _ <- py_assert (Nat.eqb (rows alpha) (cols alpha)) ;;
    ret <- minimize llf_partial v0 ;;
    _ <- py_assert (success ret) ;;
    Ok (mk_result (tolist (x ret)) None).

End Fit.

Definition _run_modeling
  (minimize : (ndarray1 -> outcome num) -> ndarray1 -> outcome OptimizeResult)
  (opinion_score_3darray : ndarray3) (kw : kwargs) : outcome result :=
  fit minimize (nansum_axis2 opinion_score_3darray) kw.

End Thurstone.

(** ** Inputs *)

(** A square array of finite, non-negative counts. *)
Definition count_matrix (a : ndarray2) : Prop :=
  rows a = cols a /\
  forall i j, (i < rows a)%nat -> (j < rows a)%nat ->
    exists w, at2 a i j = Fin w /\ 0 <= w.

(** [a[i,j] == a[j,i]] for all [i], [j]. *)
Definition symmetric (a : ndarray2) : Prop :=
  forall i j, (i < rows a)%nat -> (j < rows a)%nat -> at2 a i j = at2 a j i.

(** Every item has at least one win. *)
Definition every_item_wins (a : ndarray2) : Prop :=
  forall i, (i < rows a)%nat ->
    exists j w, (j < rows a)%nat /\ at2 a i j = Fin w /\ 0 < w.

(** A three-dimensional array of the given shape holding one value. *)
Definition const3 (d0 d1 d2 : nat) (v : num) : ndarray3 :=
  mk3 d0 d1 d2 (fun _ _ _ => v).

(** An optimizer that reports the given flag and returns its start point. *)
Definition const_minimize (flag : bool)
  : (ndarray1 -> outcome num) -> ndarray1 -> outcome Thurstone.OptimizeResult :=
  fun _ start => Ok (Thurstone.mk_ret flag start).

(** The state of BTNR after the first pass of its loop (the start state when
    that pass raises). *)
Definition sym_state (wm : ndarray2) : BTNR.state :=
  match scipy_pinv (BTNR.d2L wm (BTNR.init)) with
  | Ok P =>
      let change1 := BTNR.change_new wm P (BTNR.init) in
      BTNR.mk_state 1 (fun i => Num.sub (Fin 0) (at1 change1 i)) change1
        (BTNR.y_second wm (BTNR.init)) (BTNR.rus_new wm (BTNR.init))
  | _ => BTNR.init
  end.

(** The values a quotient of non-negative quantities can take: a
    non-negative number, [+inf] or [NaN]. *)
Definition nonneg_like (a : num) : Prop :=
  match a with
  | NaN | PInf => True
  | NInf => False
  | Fin r => 0 <= r
  end.


(** A vector of [m] non-negative numbers that sum to one. *)
Definition prob_vector (m : nat) (p : nat -> num) : Prop :=
  (forall i, (i < m)%nat -> exists q, p i = Fin q /\ 0 <= q) /\
  Num.sum_upto m p = Fin 1.

(** A vector of [m] strictly positive numbers. *)
Definition positive_vector (m : nat) (p : nat -> num) : Prop :=
  forall i, (i < m)%nat -> exists q, p i = Fin q /\ 0 < q.

(** The states the BTMLE loop passes through: the start state, and the
    state after each completed pass taken while [change > DELTA_THR]. *)
Inductive btmle_reachable (alpha : ndarray2) : BTMLE.state -> Prop :=
| reach_init : btmle_reachable alpha (BTMLE.init alpha)
| reach_pass (st st' : BTMLE.state) :
    btmle_reachable alpha st ->
    Num.gtb (BTMLE.change st) DELTA_THR = true ->
    BTMLE.body alpha st = Ok st' ->
    btmle_reachable alpha st'.

(** Two items, each beating the other once. *)
Definition pair_matrix : ndarray2 := of_rows 2 2 [[0; 1]; [1; 0]].

(** The result of a call that returned (an empty result otherwise). *)
Definition returned (o : outcome result) : result :=
  match o with
  | Ok r => r
  | _ => mk_result [] None
  end.

(** The BTMLE state after a first pass that left [p] unchanged. *)
Definition uniform_state (alpha : ndarray2) : BTMLE.state :=
  BTMLE.mk_state 1 (BTMLE.update alpha (BTMLE.p0 alpha)) (Fin 0).

(** The matrix [lbda] over the reals, for a finite vector [q]. *)
Definition lbda_real (alpha : ndarray2) (q : nat -> R) (i j : nat) : R :=
  let a := fun i j => real_of (at2 alpha i j) in
  (a i j + a j i) / (q j + q i) * 2 +
  (if Nat.eqb i j
   then Num.rsum (rows alpha)
          (fun k => - a i k / (q i * q i) +
                    (a i k + a k i) / ((q k + q i) * (q k + q i)))
   else 0).

(** A real matrix given by its rows. *)
Definition rmat_of (l : list (list R)) : rmat := fun i j => nth j (nth i l []) 0.

(** Items A and B tie 32 to 32; each of them beats C once and loses to C
    once. *)
Definition tied_matrix : ndarray2 :=
  of_rows 3 3 [[0; 32; 1]; [32; 0; 1]; [1; 1; 0]].

(** The bordered matrix BTMLE builds for [tied_matrix] at the uniform
    vector, and its inverse. *)
Definition tied_bordered : rmat :=
  rmat_of [[297 / 2; -192; -6; 1];
           [-192; 297 / 2; -6; 1];
           [-6; -6; 9; 1];
           [1; 1; 1; 0]].

Definition tied_inverse : rmat :=
  rmat_of [[-226 / 681; -76 / 227; 2 / 3; -10];
           [-76 / 227; -226 / 681; 2 / 3; -10];
           [2 / 3; 2 / 3; -4 / 3; 21];
           [-10; -10; 21; -309]].

(** The monotonicity scenario: A beats B and C five times each, B beats C
    five times, and nobody else wins. *)
Definition sweep_matrix : ndarray2 :=
  of_rows 3 3 [[0; 5; 5]; [0; 0; 5]; [0; 0; 0]].



(** Follows the spec (section 4.3), for comparison with
    [Thurstone.log_likelihood_function]: the objective is the negation of the
    matrix-wide sum of
    [alpha[i,j] * log(Phi(v_i - v_j) + eps) +
     alpha[j,i] * log(1 - Phi(v_i - v_j) + eps)], with [eps = 1e-8/M]. *)
Definition neg_log_likelihood_spec (v : ndarray1) (alpha : ndarray2) (M : nat)
  : outcome num :=
  if Nat.eqb M 0 then Raise ZeroDivisionError
  else
    let eps := Fin (/ 100000000 / INR M) in
    let contribution := fun i j =>
      Num.add
        (Num.mul (at2 alpha i j)
           (Num.log (Num.add (norm_cdf (Num.sub (at1 v i) (at1 v j))) eps)))
        (Num.mul (at2 alpha j i)
           (Num.log (Num.add
                       (Num.sub (Fin 1) (norm_cdf (Num.sub (at1 v i) (at1 v j))))
                       eps))) in
    Ok (Num.neg (Thurstone.sum2 M M contribution)).

(** Two items; the first beat the second once. *)
Definition one_win : ndarray2 := of_rows 2 2 [[0; 1]; [0; 0]].

(** Observations as the dataset reader delivers them: a missing observation
    is [NaN], a recorded one is a finite non-negative count. *)
Definition observations_ok (arr : ndarray3) : Prop :=
  forall i j k, (i < dim0 arr)%nat -> (j < dim1 arr)%nat -> (k < dim2 arr)%nat ->
    at3 arr i j k = NaN \/ exists w, at3 arr i j k = Fin w /\ 0 <= w.

(** Two items and three observations per pair, the second one missing. *)
Definition sparse_observations : ndarray3 :=
  mk3 2 2 3 (fun i j k => if Nat.eqb k 1 then NaN else Fin 1).

(** The states the BTNR loop passes through: the start state, and the state
    after each completed pass taken while [linalg.norm(change) > DELTA_THR]. *)
Inductive btnr_reachable (wm : ndarray2) : BTNR.state -> Prop :=
| btnr_reach_init : btnr_reachable wm (BTNR.init)
| btnr_reach_pass (st st' : BTNR.state) (c : num) :
    btnr_reachable wm st ->
    linalg_norm (BTNR.change st) = Ok c ->
    Num.gtb c DELTA_THR = true ->
    BTNR.body wm st = Ok st' ->
    btnr_reachable wm st'.

(** A score vector with two different entries. *)
Definition spread_scores : ndarray1 := mk1 2 (fun i => Fin (INR i)).

(** A square matrix without a single comparison. *)
Definition zero_matrix (m : nat) : ndarray2 := mk2 m m (fun _ _ => Fin 0).

(** Two items: the first beat the second [a] times and lost [b] times. *)
Definition two_items (a b : R) : ndarray2 := of_rows 2 2 [[0; a]; [b; 0]].

(** [v + c] for an array [v] and a number [c]. *)
Definition shifted (v : ndarray1) (c : R) : ndarray1 :=
  mk1 (len v) (fun i => Num.add (at1 v i) (Fin c)).

(** A BTNR state whose first parameter is [g] and whose other entries are
    the start values. *)
Definition btnr_state_at (g : R) : BTNR.state :=
  BTNR.mk_state 0 (fun k => if Nat.eqb k 0 then Fin g else Fin 0)
    (mk1 1 (fun _ => Fin float_max)) (fun _ _ => Fin 0) (fun _ _ => Fin 0).

(** ** The BTMLE loop in binary64

    The loop of BTMLE (lines 205-218 of the source) a second time, with the
    arithmetic numpy runs it in: every number is an IEEE 754 binary64 value
    and every operation rounds to the nearest one.  [np.sum] over an axis
    of fewer than eight entries adds them from left to right.  The norm of
    a vector is the square root of the sum of its squares; the library may
    differ from this in the last bits, which matters only for updates whose
    size is within rounding of the threshold. *)

Module B64.

Import PrimFloat.

Definition of_Z (z : Z) : float := of_uint63 (Uint63.of_Z z).

Definition zero : float := of_Z 0.

Definition one : float := of_Z 1.

(** [sys.float_info.max] *)
Definition float_max : float := 0x1.fffffffffffffp+1023%float.

(** [1e-8], read as the nearest binary64 number *)
Definition DELTA_THR : float := 0x1.5798ee2308c3ap-27%float.

Definition finiteb (x : float) : bool := negb (is_nan x || is_infinity x).

(** [np.sum] of a short vector *)
Definition np_sum (xs : list float) : float := fold_left add xs zero.

(** [scipy.linalg.norm] of a vector, with its finiteness check *)
Definition linalg_norm (xs : list float) : outcome float :=
  if forallb finiteb xs
  then Ok (sqrt (np_sum (map (fun x => mul x x) xs)))
  else Raise ValueError.


End B64.


Module BTMLE64.

Import PrimFloat.

Record state : Type :=
  mk_state { iteration : nat; p : list float; change : float }.

Section Fit.

Variable alpha : list (list float).

Definition M : nat := List.length alpha.

Definition entry (i j : nat) : float := nth j (nth i alpha []) B64.zero.

(** [n = alpha + alpha.T] *)
Definition n (i j : nat) : float := add (entry i j) (entry j i).

(** [np.sum(alpha, axis=1)] *)
Definition row_total (i : nat) : float := B64.np_sum (nth i alpha []).

(** [pp = np.tile(p, (M, 1)) + np.tile(p, (M, 1)).T] *)
Definition pp (p : list float) (i j : nat) : float :=
  add (nth j p B64.zero) (nth i p B64.zero).

(** [p = np.sum(alpha, axis=1) / np.sum(n / pp, axis=1)] *)
Definition unnormalized (p : list float) (i : nat) : float :=
  div (row_total i)
      (B64.np_sum (map (fun j => div (n i j) (pp p i j)) (seq 0 M))).

(** ... followed by [p = p / np.sum(p)] *)
Definition update (p : list float) : list float :=
  let q := map (unnormalized p) (seq 0 M) in
  let total := B64.np_sum q in
  map (fun x => div x total) q.

(** [p = 1.0 / M * np.ones(M)] *)
Definition p0 : list float :=
  map (fun _ => mul (div B64.one (B64.of_Z (Z.of_nat M))) B64.one) (seq 0 M).

Definition init : state := mk_state 0 p0 B64.float_max.

(** One pass through the body of the [while] loop. *)
Definition body (st : state) : outcome state :=
  let p_prev := p st in
  let p1 := update p_prev in
  change1 <- B64.linalg_norm
               (map (fun i => sub (nth i p1 B64.zero) (nth i p_prev B64.zero))
                    (seq 0 M)) ;;
  (* the progress message evaluates linalg.norm(change) *)
  _ <- B64.linalg_norm [change1] ;;
  Ok (mk_state (S (iteration st)) p1 change1).

(** [while change > DELTA_THR: ...] *)
Fixpoint loop (fuel : nat) (st : state) : outcome state :=
  if ltb B64.DELTA_THR (change st)
  then match fuel with
       | O => OutOfFuel
       | S fuel' => st' <- body st ;; loop fuel' st'
       end
  else Ok st.

End Fit.

End BTMLE64.






(** [a == b] on numpy floats: [nan] equals nothing, not even itself. *)
Definition np_equal (a b : num) : bool :=
  match a, b with
  | Fin x, Fin y => if Req_dec_T x y then true else false
  | PInf, PInf | NInf, NInf => true
  | _, _ => false
  end.

(** * Properties *)

(** ** Arithmetic on finite values *)

Lemma gtb_fin_true (x y : R) : y < x -> Num.gtb (Fin x) (Fin y) = true.
Proof.
  intro h. simpl. destruct (Rlt_dec y x) as [_ | k]; [reflexivity | contradiction].
Qed.

Lemma gtb_fin_false (x y : R) : x <= y -> Num.gtb (Fin x) (Fin y) = false.
Proof.
  intro h. simpl. destruct (Rlt_dec y x) as [k | _]; [lra | reflexivity].
Qed.

Lemma div_fin (x y : R) : y <> 0 -> Num.div (Fin x) (Fin y) = Fin (x / y).
Proof.
  intro h. simpl. destruct (Req_dec_T y 0) as [k | _]; [contradiction | reflexivity].
Qed.

Lemma div_zero_zero : Num.div (Fin 0) (Fin 0) = NaN.
Proof.
  simpl. destruct (Req_dec_T 0 0) as [_ | k]; [reflexivity | now elim k].
Qed.

Lemma sqrt_fin (x : R) : 0 <= x -> Num.sqrt (Fin x) = Fin (R_sqrt.sqrt x).
Proof.
  intro h. simpl. destruct (Rlt_dec x 0) as [k | _]; [lra | reflexivity].
Qed.

Lemma sqrt_neg (x : R) : x < 0 -> Num.sqrt (Fin x) = NaN.
Proof.
  intro h. simpl. destruct (Rlt_dec x 0) as [_ | k]; [reflexivity | contradiction].
Qed.

Lemma log_fin (x : R) : 0 < x -> Num.log (Fin x) = Fin (ln x).
Proof.
  intro h. simpl. destruct (Rlt_dec x 0) as [k | _]; [lra |].
  destruct (Req_dec_T x 0) as [k | _]; [lra | reflexivity].
Qed.

Lemma log_zero : Num.log (Fin 0) = NInf.
Proof.
  simpl. destruct (Rlt_dec 0 0) as [k | _]; [lra |].
  destruct (Req_dec_T 0 0) as [_ | k]; [reflexivity | now elim k].
Qed.

Lemma gtb_thr_true (r : R) : / 100000000 < r -> Num.gtb (Fin r) DELTA_THR = true.
Proof. intro h. apply gtb_fin_true, h. Qed.

Lemma gtb_thr_false (r : R) : r <= / 100000000 -> Num.gtb (Fin r) DELTA_THR = false.
Proof. intro h. apply gtb_fin_false, h. Qed.

Lemma float_max_large : 1 < float_max.
Proof.
  unfold float_max.
  assert (h1 : 1 <= 2 ^ 1023) by (apply pow_R1_Rle; lra).
  assert (h2 : 0 < / 2 ^ 52) by (apply Rinv_0_lt_compat, pow_lt; lra).
  assert (h3 : / 2 ^ 52 <= / 2 ^ 1).
  { apply Rinv_le_contravar; [lra |]. apply Rle_pow; [lra | lia]. }
  simpl in h3. nra.
Qed.

(** ** Sums *)

Lemma sum_upto_fin (k : nat) (f : nat -> num) (g : nat -> R) :
  (forall j, (j < k)%nat -> f j = Fin (g j)) ->
  Num.sum_upto k f = Fin (Num.rsum k g).
Proof.
  induction k as [| k ih]; intro h; simpl.
  - reflexivity.
  - rewrite ih by (intros j hj; apply h; lia).
    rewrite (h k) by lia. reflexivity.
Qed.

Lemma sum_upto_ext (k : nat) (f g : nat -> num) :
  (forall j, (j < k)%nat -> f j = g j) ->
  Num.sum_upto k f = Num.sum_upto k g.
Proof.
  induction k as [| k ih]; intro h; simpl.
  - reflexivity.
  - rewrite ih by (intros j hj; apply h; lia).
    rewrite (h k) by lia. reflexivity.
Qed.

Lemma rsum_ext (k : nat) (f g : nat -> R) :
  (forall j, (j < k)%nat -> f j = g j) -> Num.rsum k f = Num.rsum k g.
Proof.
  induction k as [| k ih]; intro h; simpl.
  - reflexivity.
  - rewrite ih by (intros j hj; apply h; lia).
    rewrite (h k) by lia. reflexivity.
Qed.

Lemma rsum_zero (k : nat) (g : nat -> R) :
  (forall j, (j < k)%nat -> g j = 0) -> Num.rsum k g = 0.
Proof.
  induction k as [| k ih]; intro h; simpl.
  - reflexivity.
  - rewrite ih by (intros j hj; apply h; lia).
    rewrite (h k) by lia. lra.
Qed.

Lemma rsum_plus (k : nat) (f g : nat -> R) :
  Num.rsum k (fun j => f j + g j) = Num.rsum k f + Num.rsum k g.
Proof.
  induction k as [| k ih]; simpl; [lra | rewrite ih; lra].
Qed.

Lemma rsum_scale (k : nat) (c : R) (f : nat -> R) :
  Num.rsum k (fun j => f j * c) = Num.rsum k f * c.
Proof.
  induction k as [| k ih]; simpl; [lra | rewrite ih; lra].
Qed.

Lemma rsum_nonneg (k : nat) (g : nat -> R) :
  (forall j, (j < k)%nat -> 0 <= g j) -> 0 <= Num.rsum k g.
Proof.
  induction k as [| k ih]; intro h; simpl.
  - lra.
  - assert (0 <= Num.rsum k g) by (apply ih; intros j hj; apply h; lia).
    assert (0 <= g k) by (apply h; lia). lra.
Qed.

Lemma rsum_pos (k : nat) (g : nat -> R) (j0 : nat) :
  (forall j, (j < k)%nat -> 0 <= g j) -> (j0 < k)%nat -> 0 < g j0 ->
  0 < Num.rsum k g.
Proof.
  induction k as [| k ih]; intros h hj hp; simpl.
  - lia.
  - assert (0 <= g k) by (apply h; lia).
    assert (0 <= Num.rsum k g) by (apply rsum_nonneg; intros j hj'; apply h; lia).
    destruct (Nat.eq_dec j0 k) as [-> | ne].
    + lra.
    + assert (0 < Num.rsum k g) by (apply ih; [intros j hj'; apply h; lia | lia | exact hp]).
      lra.
Qed.

(** ** Finiteness tests *)

Lemma all_finite_true (k : nat) (f : nat -> num) :
  (forall j, (j < k)%nat -> Num.finiteb (f j) = true) -> all_finite k f = true.
Proof.
  intro h. unfold all_finite. apply forallb_forall.
  intros j hj. apply in_seq in hj. apply h. lia.
Qed.

Lemma all_finite_elim (k : nat) (f : nat -> num) (j : nat) :
  all_finite k f = true -> (j < k)%nat -> exists r, f j = Fin r.
Proof.
  unfold all_finite. intros h hj.
  rewrite forallb_forall in h.
  specialize (h j). rewrite in_seq in h.
  assert (hf : Num.finiteb (f j) = true) by (apply h; lia).
  destruct (f j) as [| | | r]; try discriminate. now exists r.
Qed.

Lemma all_finite2_true (a : ndarray2) :
  (forall i j, (i < rows a)%nat -> (j < cols a)%nat ->
               Num.finiteb (at2 a i j) = true) ->
  all_finite2 a = true.
Proof.
  intro h. unfold all_finite2. apply forallb_forall.
  intros i hi. apply in_seq in hi.
  apply all_finite_true. intros j hj. apply h; lia.
Qed.

Lemma linalg_norm_fin (a : ndarray1) (g : nat -> R) :
  (forall j, (j < len a)%nat -> at1 a j = Fin (g j)) ->
  linalg_norm a =
    Ok (Fin (R_sqrt.sqrt (Num.rsum (len a) (fun j => g j * g j)))).
Proof.
  intro h. unfold linalg_norm.
  rewrite all_finite_true by (intros j hj; rewrite (h j hj); reflexivity).
  rewrite (sum_upto_fin _ _ (fun j => g j * g j))
    by (intros j hj; rewrite (h j hj); reflexivity).
  rewrite sqrt_fin; [reflexivity |].
  apply rsum_nonneg. intros j _. nra.
Qed.

Lemma linalg_norm_ok (a : ndarray1) (c : num) :
  linalg_norm a = Ok c ->
  (forall j, (j < len a)%nat -> exists r, at1 a j = Fin r) /\
  (exists r, c = Fin r /\ 0 <= r).
Proof.
  unfold linalg_norm. intro h.
  destruct (all_finite (len a) (at1 a)) eqn:hf; [| discriminate].
  assert (hall : forall j, (j < len a)%nat -> at1 a j = Fin (real_of (at1 a j))).
  { intros j hj. destruct (all_finite_elim _ _ j hf hj) as [r hr].
    rewrite hr. reflexivity. }
  split.
  - intros j hj. eexists. apply hall, hj.
  - rewrite (sum_upto_fin _ _ (fun j => real_of (at1 a j) * real_of (at1 a j))) in h.
    + rewrite sqrt_fin in h by (apply rsum_nonneg; intros j _; nra).
      injection h as <-. eexists. split; [reflexivity | apply sqrt_pos].
    + intros j hj. rewrite (hall j hj). reflexivity.
Qed.

(** ** Shape check and options *)

(** C7.  When the aggregated comparison matrix is not square, each of the
    three solvers raises [AssertionError].  This holds for every amount of
    fuel, zero included, and for every optimizer: the check comes before
    the first pass of the loop and before the call of the optimizer, and no
    scores are returned. *)
Theorem nonsquare_input_asserts
  (arr : ndarray3) (kw : kwargs) (fuel : nat)
  (minimize : (ndarray1 -> outcome num) -> ndarray1 ->
              outcome Thurstone.OptimizeResult) :
  rows (nansum_axis2 arr) <> cols (nansum_axis2 arr) ->
  BTNR._run_modeling arr kw fuel = Raise AssertionError /\
  BTMLE._run_modeling arr kw fuel = Raise AssertionError /\
  Thurstone._run_modeling minimize arr kw = Raise AssertionError.
Proof.
  intro ne. apply Nat.eqb_neq in ne.
  unfold BTNR._run_modeling, BTMLE._run_modeling, Thurstone._run_modeling.
  unfold BTNR.fit, BTMLE.fit, Thurstone.fit.
  rewrite ne. simpl. repeat split.
Qed.

Lemma nonsquare_input_asserts_witness :
  rows (nansum_axis2 (const3 2 3 1 (Fin 1))) <>
  cols (nansum_axis2 (const3 2 3 1 (Fin 1))) /\
  BTNR._run_modeling (const3 2 3 1 (Fin 1)) [] 0 = Raise AssertionError /\
  BTMLE._run_modeling (const3 2 3 1 (Fin 1)) [] 0 = Raise AssertionError /\
  Thurstone._run_modeling (const_minimize true) (const3 2 3 1 (Fin 1)) [] =
    Raise AssertionError.
Proof.
  assert (ne : rows (nansum_axis2 (const3 2 3 1 (Fin 1))) <>
               cols (nansum_axis2 (const3 2 3 1 (Fin 1)))) by (simpl; lia).
  split; [exact ne |].
  exact (nonsquare_input_asserts (const3 2 3 1 (Fin 1)) [] 0 (const_minimize true) ne).
Defined.

(** C6.  On a square matrix the Thurstone solver reads the optimizer's success
    flag after the call: a failure flag ends the call with [AssertionError]
    and no result; a success flag returns the optimizer's vector as
    [quality_scores] with [quality_scores_std] absent. *)
Theorem thurstone_checks_success
  (minimize : (ndarray1 -> outcome num) -> ndarray1 ->
              outcome Thurstone.OptimizeResult)
  (alpha : ndarray2) (kw : kwargs) (ret : Thurstone.OptimizeResult) :
  rows alpha = cols alpha ->
  minimize (Thurstone.llf_partial alpha) (Thurstone.v0 alpha) = Ok ret ->
  Thurstone.fit minimize alpha kw =
    if Thurstone.success ret
    then Ok (mk_result (tolist (Thurstone.x ret)) None)
    else Raise AssertionError.
Proof.
  intros sq call. apply Nat.eqb_eq in sq.
  unfold Thurstone.fit. rewrite sq. simpl. rewrite call. simpl.
  destruct (Thurstone.success ret); reflexivity.
Qed.

Lemma thurstone_checks_success_witness :
  Thurstone.fit (const_minimize false) (of_rows 2 2 [[0; 1]; [0; 0]]) [] =
    Raise AssertionError.
Proof.
  exact (thurstone_checks_success (const_minimize false)
           (of_rows 2 2 [[0; 1]; [0; 0]]) []
           (Thurstone.mk_ret false (Thurstone.v0 (of_rows 2 2 [[0; 1]; [0; 0]])))
           eq_refl eq_refl).
Defined.

Lemma btnr_loop_eq (wm : ndarray2) (fuel : nat) (st : BTNR.state) :
  BTNR.loop wm fuel st =
    (c <- linalg_norm (BTNR.change st) ;;
     if Num.gtb c DELTA_THR
     then match fuel with
          | O => OutOfFuel
          | S fuel' => st' <- BTNR.body wm st ;; BTNR.loop wm fuel' st'
          end
     else Ok st).
Proof. destruct fuel; reflexivity. Qed.

Lemma btmle_loop_eq (alpha : ndarray2) (fuel : nat) (st : BTMLE.state) :
  BTMLE.loop alpha fuel st =
    if Num.gtb (BTMLE.change st) DELTA_THR
    then match fuel with
         | O => OutOfFuel
         | S fuel' => st' <- BTMLE.body alpha st ;; BTMLE.loop alpha fuel' st'
         end
    else Ok st.
Proof. destruct fuel; reflexivity. Qed.

(** What a successful BTNR call went through. *)
Lemma btnr_fit_ok (wm : ndarray2) (kw : kwargs) (fuel : nat) (r : result) :
  BTNR.fit wm kw fuel = Ok r ->
  rows wm = cols wm /\ rows wm <> 0%nat /\
  exists st, BTNR.loop wm fuel (BTNR.init) = Ok st /\
    r = mk_result
          (tolist (if truthy (BTNR.zscore_output kw)
                   then BTNR.zscore (BTNR.raw_scores wm st)
                   else BTNR.raw_scores wm st)) None.
Proof.
  unfold BTNR.fit. intro h.
  destruct (Nat.eqb (rows wm) (cols wm)) eqn:sq; [| discriminate].
  simpl in h. unfold BTNR.n in h.
  destruct (Nat.eqb (rows wm) 0) eqn:nz; [discriminate |].
  simpl in h.
  destruct (BTNR.loop wm fuel BTNR.init) as [st | e |] eqn:hl; try discriminate.
  simpl in h. injection h as <-.
  apply Nat.eqb_eq in sq. apply Nat.eqb_neq in nz.
  repeat split; try assumption. exists st. split; reflexivity.
Qed.

Lemma btnr_fit_of_loop (wm : ndarray2) (kw : kwargs) (fuel : nat) (st : BTNR.state) :
  rows wm = cols wm -> rows wm <> 0%nat ->
  BTNR.loop wm fuel (BTNR.init) = Ok st ->
  BTNR.fit wm kw fuel =
    Ok (mk_result
          (tolist (if truthy (BTNR.zscore_output kw)
                   then BTNR.zscore (BTNR.raw_scores wm st)
                   else BTNR.raw_scores wm st)) None).
Proof.
  intros sq nz hl. unfold BTNR.fit.
  apply Nat.eqb_eq in sq. rewrite sq. simpl.
  apply Nat.eqb_neq in nz. unfold BTNR.n at 1. rewrite nz. simpl.
  rewrite hl. reflexivity.
Qed.

(** ** BTNR on a symmetric matrix *)

Global Opaque float_max.

Lemma count_entry (a : ndarray2) (i j : nat) :
  count_matrix a -> (i < rows a)%nat -> (j < rows a)%nat ->
  at2 a i j = Fin (real_of (at2 a i j)) /\ 0 <= real_of (at2 a i j).
Proof.
  intros [_ h] hi hj. destruct (h i j hi hj) as [w [e hw]].
  rewrite e. simpl. split; [reflexivity | exact hw].
Qed.

Lemma map_const_repeat (A B : Type) (b : B) (l : list A) :
  map (fun _ => b) l = repeat b (List.length l).
Proof. induction l as [| a l ih]; simpl; [reflexivity | now rewrite ih]. Qed.

Section Symmetric.

Variable wm : ndarray2.
Hypothesis counts : count_matrix wm.
Hypothesis sym : symmetric wm.

Let N : nat := rows wm.
Let w (i j : nat) : R := real_of (at2 wm i j).

Lemma sym_entry (i j : nat) : (i < N)%nat -> (j < N)%nat -> at2 wm i j = Fin (w i j).
Proof. intros hi hj. apply (count_entry wm i j counts hi hj). Qed.

Lemma sym_w (i j : nat) : (i < N)%nat -> (j < N)%nat -> w j i = w i j.
Proof. intros hi hj. unfold w. now rewrite (sym i j hi hj). Qed.

Lemma sym_w_nonneg (i j : nat) : (i < N)%nat -> (j < N)%nat -> 0 <= w i j.
Proof. intros hi hj. apply (count_entry wm i j counts hi hj). Qed.

Lemma sym_gm (i j : nat) :
    (i < N)%nat -> (j < N)%nat -> BTNR.gm wm i j = Fin (w i j + w j i).
Proof.
    intros hi hj. unfold BTNR.gm.
    rewrite (sym_entry i j hi hj), (sym_entry j i hj hi). reflexivity.
Qed.

Lemma sym_rus_new (i j : nat) :
    BTNR.rus_new wm (BTNR.init) i j =
      Fin (if BTNR.gind wm i j then 1 / 2 else 0).
Proof.
    unfold BTNR.rus_new, BTNR.pi.
    cbn [BTNR.gamma BTNR.rus BTNR.init Num.exp Num.add]. rewrite exp_0.
    destruct (BTNR.gind wm i j); [| reflexivity].
    rewrite div_fin by lra. f_equal; lra.
Qed.

Lemma sym_y_first (i j : nat) :
    (i < N)%nat -> (j < N)%nat ->
    BTNR.y_first wm (BTNR.init) i j = Fin ((w i j + w j i) * (1 / 2)).
Proof.
    intros hi hj. unfold BTNR.y_first. rewrite sym_rus_new.
    destruct (BTNR.gind wm i j) eqn:hg.
    - rewrite (sym_gm i j hi hj). reflexivity.
    - simpl. f_equal.
      unfold BTNR.gind in hg. rewrite (sym_gm i j hi hj) in hg.
      simpl in hg. destruct (Rlt_dec 0 (w i j + w j i)) as [k | k]; [discriminate |].
      pose proof (sym_w_nonneg i j hi hj). pose proof (sym_w_nonneg j i hj hi).
      assert (w i j + w j i = 0) by lra. nra.
Qed.

Lemma sym_dL (i : nat) : (i < N)%nat -> BTNR.dL wm (BTNR.init) i = Fin 0.
Proof.
    intro hi. unfold BTNR.dL, BTNR.d2Q, BTNR.wins, BTNR.n. fold N.
    rewrite (sum_upto_fin N (fun j => BTNR.y_first wm BTNR.init i j)
               (fun j => (w i j + w j i) * (1 / 2)))
      by (intros j hj; apply sym_y_first; assumption).
    rewrite (sum_upto_fin N (fun j => at2 wm i j) (w i))
      by (intros j hj; apply sym_entry; assumption).
    cbn [Num.neg Num.add]. f_equal.
    rewrite (rsum_ext N (fun j => (w i j + w j i) * (1 / 2)) (w i)).
    - lra.
    - intros j hj. rewrite (sym_w i j hi hj). lra.
Qed.

Lemma sym_y_second (i j : nat) :
    (i < N)%nat -> (j < N)%nat ->
    exists r, BTNR.y_second wm (BTNR.init) i j = Fin r.
Proof.
    intros hi hj. unfold BTNR.y_second.
    rewrite (sym_y_first i j hi hj), sym_rus_new.
    destruct (BTNR.gind wm i j); simpl; eexists; reflexivity.
Qed.

Lemma sym_d2L_finite : all_finite2 (BTNR.d2L wm (BTNR.init)) = true.
Proof.
    apply all_finite2_true. simpl. unfold BTNR.nmo, BTNR.n. fold N.
    intros i j hi hj.
    assert (hi' : (i < N)%nat) by lia. assert (hj' : (j < N)%nat) by lia.
    destruct (BTNR.gind wm i j).
    - destruct (sym_y_second i j hi' hj') as [r ->]. reflexivity.
    - destruct (Nat.eqb i j); [| reflexivity].
      rewrite (sum_upto_fin N _ (fun k => real_of (BTNR.y_second wm BTNR.init i k))).
      + reflexivity.
      + intros k hk. destruct (sym_y_second i k hi' hk) as [r ->]. reflexivity.
Qed.

Lemma sym_change_new (P : ndarray2) (i : nat) :
    (forall a b, exists r, at2 P a b = Fin r) ->
    at1 (BTNR.change_new wm P (BTNR.init)) i = Fin 0.
Proof.
    intro hP. simpl. unfold BTNR.nmo, BTNR.n. fold N.
    destruct (Nat.ltb i (N - 1)) eqn:hi; [| reflexivity].
    rewrite (sum_upto_fin (N - 1) _ (fun _ => 0)).
    - f_equal. apply rsum_zero. reflexivity.
    - intros k hk. rewrite sym_dL by lia.
      destruct (hP i k) as [r ->]. simpl. f_equal. lra.
Qed.

Lemma sym_state_change (i : nat) : at1 (BTNR.change (sym_state wm)) i = Fin 0.
Proof.
    unfold sym_state, scipy_pinv, pinv_with. rewrite sym_d2L_finite.
    cbv zeta. cbn [BTNR.change].
    apply sym_change_new. intros a b. simpl. eexists. reflexivity.
Qed.

Lemma sym_state_len : len (BTNR.change (sym_state wm)) = N.
Proof.
    unfold sym_state, scipy_pinv, pinv_with. rewrite sym_d2L_finite. reflexivity.
Qed.

Lemma sym_state_gamma (i : nat) : BTNR.gamma (sym_state wm) i = Fin 0.
Proof.
    pose proof (sym_state_change i) as hc. revert hc.
    unfold sym_state, scipy_pinv, pinv_with. rewrite sym_d2L_finite.
    cbv zeta. cbn [BTNR.change BTNR.gamma]. intros ->.
    simpl. f_equal. lra.
Qed.

Lemma sym_state_norm : linalg_norm (BTNR.change (sym_state wm)) = Ok (Fin 0).
Proof.
    rewrite (linalg_norm_fin _ (fun _ => 0)) by (intros; apply sym_state_change).
    rewrite rsum_zero by (intros; lra). now rewrite sqrt_0.
Qed.

Lemma sym_body : BTNR.body wm (BTNR.init) = Ok (sym_state wm).
Proof.
    pose proof sym_state_norm as hn. revert hn.
    unfold BTNR.body, sym_state, scipy_pinv, pinv_with.
    rewrite sym_d2L_finite. cbv zeta. cbn [bind BTNR.change BTNR.iteration BTNR.gamma].
    intros ->. reflexivity.
Qed.

Lemma init_norm_large :
    exists r, linalg_norm (BTNR.change (BTNR.init)) = Ok (Fin r) /\ 1 < r.
Proof.
    exists (R_sqrt.sqrt (0 + float_max * float_max)). split.
    - apply (linalg_norm_fin (BTNR.change BTNR.init) (fun _ => float_max)).
      reflexivity.
    - pose proof float_max_large as hm.
      replace (0 + float_max * float_max) with (Rsqr float_max)
        by (unfold Rsqr; lra).
      rewrite sqrt_Rsqr by lra. exact hm.
Qed.

Lemma sym_loop (fuel : nat) : BTNR.loop wm (S fuel) (BTNR.init) = Ok (sym_state wm).
Proof.
    rewrite btnr_loop_eq.
    destruct init_norm_large as [r [-> hr]]. cbn [bind].
    rewrite gtb_thr_true by lra.
    rewrite sym_body. cbn [bind].
    rewrite btnr_loop_eq, sym_state_norm. cbn [bind].
    rewrite gtb_thr_false by lra. reflexivity.
Qed.

Lemma sym_raw_scores :
    tolist (BTNR.raw_scores wm (sym_state wm)) = repeat (Fin 0) N.
Proof.
    unfold tolist. cbn [len at1 BTNR.raw_scores]. unfold BTNR.n. fold N.
    transitivity (map (fun _ : nat => Fin 0) (seq 0 N)).
    2: { rewrite map_const_repeat, length_seq. reflexivity. }
    apply map_ext. intro i.
    destruct (Nat.eqb i (N - 1)); [reflexivity | apply sym_state_gamma].
Qed.

End Symmetric.

Lemma btnr_symmetric_fit (wm : ndarray2) (kw : kwargs) (fuel : nat) :
  count_matrix wm -> symmetric wm -> rows wm <> 0%nat ->
  BTNR.fit wm kw (S fuel) =
    Ok (mk_result
          (tolist (if truthy (BTNR.zscore_output kw)
                   then BTNR.zscore (BTNR.raw_scores wm (sym_state wm))
                   else BTNR.raw_scores wm (sym_state wm))) None).
Proof.
  intros hc hs nz. apply btnr_fit_of_loop.
  - apply hc.
  - exact nz.
  - apply sym_loop; assumption.
Qed.

Lemma pair_counts : count_matrix (of_rows 2 2 [[0; 1]; [1; 0]]).
Proof.
  split; [reflexivity |]. simpl. intros i j hi hj.
  destruct i as [| [| i]]; destruct j as [| [| j]]; try lia;
    simpl; eexists; (split; [reflexivity | lra]).
Qed.

Lemma pair_symmetric : symmetric (of_rows 2 2 [[0; 1]; [1; 0]]).
Proof.
  unfold symmetric. simpl. intros i j hi hj.
  destruct i as [| [| i]]; destruct j as [| [| j]]; try lia; reflexivity.
Qed.

(** C9, as amended.  On a square matrix of non-negative counts with at least
    one item and [wm[i,j] == wm[j,i]] everywhere, the BTNR loop converges
    after its first pass, whatever the options; the converged score vector
    has all its entries equal (to zero), and it is the vector returned when
    z-scoring is not requested. *)
Theorem btnr_symmetric_scores_equal (wm : ndarray2) (kw : kwargs) (fuel : nat) :
  count_matrix wm -> symmetric wm -> rows wm <> 0%nat ->
  exists st,
    BTNR.loop wm (S fuel) (BTNR.init) = Ok st /\
    BTNR.iteration st = 1%nat /\
    tolist (BTNR.raw_scores wm st) = repeat (Fin 0) (rows wm) /\
    (forall a b, In a (tolist (BTNR.raw_scores wm st)) ->
                 In b (tolist (BTNR.raw_scores wm st)) -> a = b) /\
    (truthy (BTNR.zscore_output kw) = false ->
     BTNR.fit wm kw (S fuel) = Ok (mk_result (repeat (Fin 0) (rows wm)) None)).
Proof.
  intros hc hs nz. exists (sym_state wm).
  pose proof (sym_raw_scores wm hc hs) as hr.
  split; [apply sym_loop; assumption |].
  split.
  { unfold sym_state, scipy_pinv, pinv_with.
    rewrite (sym_d2L_finite wm hc). reflexivity. }
  split; [exact hr |].
  split.
  - rewrite hr. intros a b ha hb.
    apply repeat_spec in ha. apply repeat_spec in hb. congruence.
  - intro off. rewrite (btnr_symmetric_fit wm kw fuel hc hs nz), off, hr.
    reflexivity.
Qed.

Lemma btnr_symmetric_scores_equal_witness :
  exists st,
    BTNR.loop (of_rows 2 2 [[0; 1]; [1; 0]]) 1 (BTNR.init) = Ok st /\
    BTNR.iteration st = 1%nat /\
    tolist (BTNR.raw_scores (of_rows 2 2 [[0; 1]; [1; 0]]) st) =
      repeat (Fin 0) 2 /\
    (forall a b,
        In a (tolist (BTNR.raw_scores (of_rows 2 2 [[0; 1]; [1; 0]]) st)) ->
        In b (tolist (BTNR.raw_scores (of_rows 2 2 [[0; 1]; [1; 0]]) st)) ->
        a = b) /\
    (truthy (BTNR.zscore_output []) = false ->
     BTNR.fit (of_rows 2 2 [[0; 1]; [1; 0]]) [] 1 =
       Ok (mk_result (repeat (Fin 0) 2) None)).
Proof.
  apply (btnr_symmetric_scores_equal (of_rows 2 2 [[0; 1]; [1; 0]]) [] 0
           pair_counts pair_symmetric).
  simpl. lia.
Defined.

Lemma nth_tolist (a : ndarray1) (i : nat) (d : num) :
  (i < len a)%nat -> nth i (tolist a) d = at1 a i.
Proof.
  intro h. unfold tolist.
  rewrite (nth_indep _ d (at1 a 0%nat)) by (rewrite length_map, length_seq; exact h).
  rewrite map_nth. f_equal. rewrite seq_nth by exact h. reflexivity.
Qed.

(** C4.  Whenever a BTNR call returns, its loop has converged in some state
    [st]; the score vector before any z-scoring is the raw [gamma] of that
    state (no exponential is applied) with its last entry set to exactly
    zero; the returned scores are this vector, z-scored only on request. *)
Theorem btnr_last_score_zero (wm : ndarray2) (kw : kwargs) (fuel : nat) (r : result) :
  BTNR.fit wm kw fuel = Ok r ->
  exists st,
    BTNR.loop wm fuel (BTNR.init) = Ok st /\
    len (BTNR.raw_scores wm st) = rows wm /\
    (forall i, i <> (rows wm - 1)%nat ->
               at1 (BTNR.raw_scores wm st) i = BTNR.gamma st i) /\
    at1 (BTNR.raw_scores wm st) (rows wm - 1) = Fin 0 /\
    nth (rows wm - 1) (tolist (BTNR.raw_scores wm st)) NaN = Fin 0 /\
    quality_scores r =
      tolist (if truthy (BTNR.zscore_output kw)
              then BTNR.zscore (BTNR.raw_scores wm st)
              else BTNR.raw_scores wm st) /\
    quality_scores_std r = None.
Proof.
  intro h. destruct (btnr_fit_ok wm kw fuel r h) as [sq [nz [st [hl ->]]]].
  exists st. split; [exact hl |]. split; [reflexivity |].
  assert (last : at1 (BTNR.raw_scores wm st) (rows wm - 1) = Fin 0).
  { simpl. unfold BTNR.n. now rewrite Nat.eqb_refl. }
  split.
  { intros i ne. simpl. unfold BTNR.n.
    apply Nat.eqb_neq in ne. now rewrite ne. }
  split; [exact last |].
  split.
  { rewrite nth_tolist; [exact last |]. simpl. unfold BTNR.n. lia. }
  split; reflexivity.
Qed.

Lemma btnr_last_score_zero_witness :
  exists st,
    BTNR.loop (of_rows 2 2 [[0; 1]; [1; 0]]) 1 (BTNR.init) = Ok st /\
    len (BTNR.raw_scores (of_rows 2 2 [[0; 1]; [1; 0]]) st) = 2%nat /\
    (forall i, i <> 1%nat ->
       at1 (BTNR.raw_scores (of_rows 2 2 [[0; 1]; [1; 0]]) st) i =
       BTNR.gamma st i) /\
    at1 (BTNR.raw_scores (of_rows 2 2 [[0; 1]; [1; 0]]) st) 1 = Fin 0 /\
    nth 1 (tolist (BTNR.raw_scores (of_rows 2 2 [[0; 1]; [1; 0]]) st)) NaN =
      Fin 0 /\
    quality_scores
      (mk_result
         (tolist (BTNR.raw_scores (of_rows 2 2 [[0; 1]; [1; 0]])
                    (sym_state (of_rows 2 2 [[0; 1]; [1; 0]])))) None) =
      tolist (if truthy (BTNR.zscore_output [])
              then BTNR.zscore (BTNR.raw_scores (of_rows 2 2 [[0; 1]; [1; 0]]) st)
              else BTNR.raw_scores (of_rows 2 2 [[0; 1]; [1; 0]]) st) /\
    quality_scores_std
      (mk_result
         (tolist (BTNR.raw_scores (of_rows 2 2 [[0; 1]; [1; 0]])
                    (sym_state (of_rows 2 2 [[0; 1]; [1; 0]])))) None) = None.
Proof.
  apply (btnr_last_score_zero (of_rows 2 2 [[0; 1]; [1; 0]]) [] 1).
  apply (btnr_symmetric_fit (of_rows 2 2 [[0; 1]; [1; 0]]) [] 0
           pair_counts pair_symmetric).
  simpl. lia.
Defined.



(** ** Special values in sums and quotients *)

Lemma add_fin_inv (a b : num) (s : R) :
  Num.add a b = Fin s -> exists x y, a = Fin x /\ b = Fin y /\ s = x + y.
Proof.
  destruct a as [| | | x]; destruct b as [| | | y]; simpl; try discriminate.
  intro h. injection h as <-. now exists x, y.
Qed.

Lemma sub_fin_inv (a b : num) (s : R) :
  Num.sub a b = Fin s -> exists x y, a = Fin x /\ b = Fin y.
Proof.
  unfold Num.sub. intro h. apply add_fin_inv in h.
  destruct h as [x [y [ha [hb _]]]].
  destruct b as [| | | z]; simpl in hb; try discriminate.
  now exists x, z.
Qed.

Lemma sum_upto_fin_inv (k : nat) (f : nat -> num) (s : R) :
  Num.sum_upto k f = Fin s -> forall j, (j < k)%nat -> exists r, f j = Fin r.
Proof.
  revert s. induction k as [| k ih]; intros s h j hj; [lia |].
  simpl in h. apply add_fin_inv in h. destruct h as [x [y [hx [hy _]]]].
  destruct (Nat.eq_dec j k) as [-> | ne].
  - now exists y.
  - apply (ih x hx). lia.
Qed.

Lemma sum_upto_real_of (k : nat) (f : nat -> num) :
  (forall j, (j < k)%nat -> exists r, f j = Fin r) ->
  Num.sum_upto k f = Fin (Num.rsum k (fun j => real_of (f j))).
Proof.
  intro h. apply sum_upto_fin. intros j hj.
  destruct (h j hj) as [r ->]. reflexivity.
Qed.

Lemma all_finite_false (k : nat) (f : nat -> num) :
  all_finite k f = false ->
  exists j, (j < k)%nat /\ Num.finiteb (f j) = false.
Proof.
  unfold all_finite. induction k as [| k ih]; intro h.
  - discriminate.
  - rewrite seq_S, forallb_app in h. simpl in h.
    apply andb_false_iff in h. destruct h as [h | h].
    + destruct (ih h) as [j [hj hf]]. exists j. split; [lia | exact hf].
    + exists k. split; [lia |]. now rewrite andb_true_r in h.
Qed.

Lemma div_fin_inv (a b : num) (r : R) :
  Num.div a b = Fin r ->
  (exists x y, a = Fin x /\ b = Fin y /\ y <> 0 /\ r = x / y) \/
  (exists x, a = Fin x /\ (b = PInf \/ b = NInf) /\ r = 0).
Proof.
  destruct a as [| | | x]; destruct b as [| | | y]; simpl; try discriminate.
  - destruct (Rlt_dec y 0); discriminate.
  - destruct (Rlt_dec y 0); discriminate.
  - intro h. injection h as <-. right. exists x. auto.
  - intro h. injection h as <-. right. exists x. auto.
  - destruct (Req_dec_T y 0) as [e | ne].
    + destruct (Req_dec_T x 0); [discriminate |].
      destruct (Rlt_dec 0 x); discriminate.
    + intro h. injection h as <-. left. now exists x, y.
Qed.

Lemma div_by_inf_not_fin (a b : num) :
  Num.finiteb a = false -> b = PInf \/ b = NInf -> Num.finiteb (Num.div a b) = false.
Proof.
  intros ha [-> | ->]; destruct a; simpl in *; try reflexivity; discriminate.
Qed.

(** Dividing every entry by the sum of all entries gives entries that sum
    to one, as soon as every quotient is finite. *)
Lemma normalized_sum_one (m : nat) (u : nat -> num) :
  (0 < m)%nat ->
  (forall i, (i < m)%nat -> exists r, Num.div (u i) (Num.sum_upto m u) = Fin r) ->
  Num.sum_upto m (fun i => Num.div (u i) (Num.sum_upto m u)) = Fin 1 /\
  exists y, Num.sum_upto m u = Fin y /\ y <> 0 /\
            forall i, (i < m)%nat -> u i = Fin (real_of (u i)).
Proof.
  intros hm hq.
  assert (hs : exists y, Num.sum_upto m u = Fin y /\ y <> 0).
  { destruct (hq 0%nat hm) as [r hr]. apply div_fin_inv in hr.
    destruct hr as [[x [y [_ [hy [ny _]]]]] | [x [_ [hinf _]]]].
    - now exists y.
    - exfalso. destruct (all_finite m u) eqn:hf.
      + rewrite (sum_upto_real_of m u) in hinf
          by (intros j hj; apply (all_finite_elim m u j hf hj)).
        destruct hinf; discriminate.
      + destruct (all_finite_false m u hf) as [j [hj hfj]].
        destruct (hq j hj) as [r2 hr2].
        pose proof (div_by_inf_not_fin (u j) _ hfj hinf) as k.
        rewrite hr2 in k. discriminate. }
  destruct hs as [y [hy ny]].
  assert (hu : forall i, (i < m)%nat -> u i = Fin (real_of (u i))).
  { intros i hi. destruct (sum_upto_fin_inv m u y hy i hi) as [r ->]. reflexivity. }
  split.
  - rewrite (sum_upto_fin m _ (fun i => real_of (u i) * / y)).
    + f_equal. rewrite rsum_scale.
      rewrite (sum_upto_fin m u (fun i => real_of (u i)) hu) in hy.
      injection hy as ->. now apply Rinv_r.
    + intros i hi. rewrite hy. rewrite (hu i hi) at 1.
      rewrite div_fin by exact ny. reflexivity.
  - exists y. split; [exact hy |]. split; [exact ny | exact hu].
Qed.


Lemma nonneg_like_add (a b : num) :
  nonneg_like a -> nonneg_like b -> nonneg_like (Num.add a b).
Proof.
  destruct a as [| | | x]; destruct b as [| | | y]; simpl; try tauto. lra.
Qed.

Lemma nonneg_like_sum (k : nat) (f : nat -> num) :
  (forall j, (j < k)%nat -> nonneg_like (f j)) -> nonneg_like (Num.sum_upto k f).
Proof.
  induction k as [| k ih]; intro h; simpl.
  - lra.
  - apply nonneg_like_add; [apply ih; intros j hj; apply h; lia | apply h; lia].
Qed.

Lemma nonneg_like_div (a b : num) :
  nonneg_like a -> nonneg_like b -> nonneg_like (Num.div a b).
Proof.
  destruct a as [| | | x]; destruct b as [| | | y]; simpl; try tauto.
  - intros _ hy. destruct (Rlt_dec y 0); [lra | exact I].
  - intros _ _. lra.
  - intros hx hy. destruct (Req_dec_T y 0) as [e | ne].
    + destruct (Req_dec_T x 0); [exact I |].
      destruct (Rlt_dec 0 x); [exact I | lra].
    + simpl. apply Rmult_le_pos; [exact hx |].
      apply Rlt_le, Rinv_0_lt_compat. lra.
Qed.

(** ** The BTMLE fixed-point loop *)


Section Btmle.

Variable alpha : ndarray2.
Hypothesis counts : count_matrix alpha.

Let M : nat := rows alpha.
Let a (i j : nat) : R := real_of (at2 alpha i j).

Lemma btmle_entry (i j : nat) :
  (i < M)%nat -> (j < M)%nat -> at2 alpha i j = Fin (a i j) /\ 0 <= a i j.
Proof. intros hi hj. apply (count_entry alpha i j counts hi hj). Qed.

Lemma btmle_n (i j : nat) :
  (i < M)%nat -> (j < M)%nat ->
  BTMLE.n alpha i j = Fin (a i j + a j i) /\ 0 <= a i j + a j i.
Proof.
  intros hi hj. unfold BTMLE.n.
  destruct (btmle_entry i j hi hj) as [-> h1].
  destruct (btmle_entry j i hj hi) as [-> h2].
  split; [reflexivity | lra].
Qed.

Lemma btmle_row_total (i : nat) :
  (i < M)%nat ->
  BTMLE.row_total alpha i = Fin (Num.rsum M (a i)) /\ 0 <= Num.rsum M (a i).
Proof.
  intro hi. unfold BTMLE.row_total, BTMLE.M. fold M. split.
  - apply sum_upto_fin. intros j hj. apply btmle_entry; assumption.
  - apply rsum_nonneg. intros j hj. apply btmle_entry; assumption.
Qed.

Lemma unnormalized_class (p : nat -> num) (i : nat) :
  (forall j, (j < M)%nat -> nonneg_like (p j)) -> (i < M)%nat ->
  nonneg_like (BTMLE.unnormalized alpha p i).
Proof.
  intros hp hi. unfold BTMLE.unnormalized, BTMLE.M. fold M.
  apply nonneg_like_div.
  - destruct (btmle_row_total i hi) as [-> h]. exact h.
  - apply nonneg_like_sum. intros j hj. apply nonneg_like_div.
    + destruct (btmle_n i j hi hj) as [-> h]. exact h.
    + unfold BTMLE.pp. apply nonneg_like_add; apply hp; assumption.
Qed.

Lemma update_class (p : nat -> num) (i : nat) :
  (forall j, (j < M)%nat -> nonneg_like (p j)) -> (i < M)%nat ->
  nonneg_like (BTMLE.update alpha p i).
Proof.
  intros hp hi. unfold BTMLE.update, BTMLE.M. fold M.
  apply nonneg_like_div.
  - apply unnormalized_class; assumption.
  - apply nonneg_like_sum. intros j hj. apply unnormalized_class; assumption.
Qed.

(** What a completed pass tells about the new vector. *)
Lemma body_ok (st st' : BTMLE.state) :
  BTMLE.body alpha st = Ok st' ->
  BTMLE.p st' = BTMLE.update alpha (BTMLE.p st) /\
  BTMLE.iteration st' = S (BTMLE.iteration st) /\
  (forall i, (i < M)%nat -> exists r, BTMLE.update alpha (BTMLE.p st) i = Fin r) /\
  (exists c, BTMLE.change st' = Fin c /\ 0 <= c).
Proof.
  unfold BTMLE.body. intro h.
  destruct (linalg_norm
              (mk1 (BTMLE.M alpha)
                 (fun i => Num.sub (BTMLE.update alpha (BTMLE.p st) i)
                                   (BTMLE.p st i)))) as [c | e |] eqn:hn;
    try discriminate.
  cbn [bind] in h.
  destruct (linalg_norm (mk1 1 (fun _ => c))) as [c' | e |]; try discriminate.
  cbn [bind] in h. injection h as <-.
  destruct (linalg_norm_ok _ _ hn) as [hfin hc].
  repeat split; try assumption.
  intros i hi. destruct (hfin i hi) as [r hr]. cbn [at1] in hr.
  apply sub_fin_inv in hr. destruct hr as [x [_ [hx _]]]. now exists x.
Qed.

Lemma body_prob_vector (st st' : BTMLE.state) :
  M <> 0%nat ->
  (forall j, (j < M)%nat -> nonneg_like (BTMLE.p st j)) ->
  BTMLE.body alpha st = Ok st' ->
  prob_vector M (BTMLE.p st').
Proof.
  intros nz hp hb. destruct (body_ok st st' hb) as [-> [_ [hfin _]]].
  split.
  - intros i hi. destruct (hfin i hi) as [r hr]. exists r. split; [exact hr |].
    pose proof (update_class (BTMLE.p st) i hp hi) as k.
    rewrite hr in k. exact k.
  - apply (normalized_sum_one M (BTMLE.unnormalized alpha (BTMLE.p st))).
    + lia.
    + exact hfin.
Qed.

Lemma prob_vector_class (p : nat -> num) :
  prob_vector M p -> forall j, (j < M)%nat -> nonneg_like (p j).
Proof. intros [h _] j hj. destruct (h j hj) as [q [-> hq]]. exact hq. Qed.

Lemma p0_positive : M <> 0%nat -> positive_vector M (BTMLE.p0 alpha).
Proof.
  intros nz i _. unfold BTMLE.p0, BTMLE.M. fold M. simpl.
  eexists. split; [reflexivity |].
  assert (0 < INR M) by (apply lt_0_INR; lia).
  assert (0 < / INR M) by (now apply Rinv_0_lt_compat).
  lra.
Qed.

Lemma positive_class (p : nat -> num) :
  positive_vector M p -> forall j, (j < M)%nat -> nonneg_like (p j).
Proof. intros h j hj. destruct (h j hj) as [q [-> hq]]. simpl. lra. Qed.

Lemma reachable_inv (st : BTMLE.state) :
  M <> 0%nat -> btmle_reachable alpha st ->
  (forall j, (j < M)%nat -> nonneg_like (BTMLE.p st j)) /\
  ((1 <= BTMLE.iteration st)%nat -> prob_vector M (BTMLE.p st)) /\
  (st = BTMLE.init alpha \/ (1 <= BTMLE.iteration st)%nat).
Proof.
  intros nz hr. induction hr as [| st st' hr [ih _] hg hb].
  - split; [| split].
    + apply positive_class, p0_positive, nz.
    + simpl. lia.
    + now left.
  - pose proof (body_prob_vector st st' nz ih hb) as hpv.
    destruct (body_ok st st' hb) as [_ [hit _]].
    split; [| split].
    + apply prob_vector_class, hpv.
    + intros _. exact hpv.
    + right. lia.
Qed.

Lemma init_change_large : Num.gtb (BTMLE.change (BTMLE.init alpha)) DELTA_THR = true.
Proof.
  simpl. apply gtb_thr_true. pose proof float_max_large. lra.
Qed.

Lemma loop_reachable (fuel : nat) (st st' : BTMLE.state) :
  btmle_reachable alpha st ->
  BTMLE.loop alpha fuel st = Ok st' ->
  btmle_reachable alpha st' /\ Num.gtb (BTMLE.change st') DELTA_THR = false.
Proof.
  revert st. induction fuel as [| fuel ih]; intros st hr h;
    rewrite btmle_loop_eq in h;
    destruct (Num.gtb (BTMLE.change st) DELTA_THR) eqn:hg.
  - discriminate.
  - injection h as <-. now split.
  - destruct (BTMLE.body alpha st) as [st1 | e |] eqn:hb; try discriminate.
    cbn [bind] in h. apply (ih st1); [| exact h].
    now apply (reach_pass alpha st st1).
  - injection h as <-. now split.
Qed.

Lemma loop_result (fuel : nat) (st : BTMLE.state) :
  M <> 0%nat ->
  BTMLE.loop alpha fuel (BTMLE.init alpha) = Ok st ->
  btmle_reachable alpha st /\ (1 <= BTMLE.iteration st)%nat /\
  prob_vector M (BTMLE.p st).
Proof.
  intros nz h.
  destruct (loop_reachable fuel _ st (reach_init alpha) h) as [hr hg].
  destruct (reachable_inv st nz hr) as [_ [hpv [e | hit]]].
  - subst st. rewrite init_change_large in hg. discriminate.
  - split; [exact hr |]. split; [exact hit | apply hpv, hit].
Qed.

End Btmle.

Lemma positive_entry (m : nat) (p : nat -> num) (j : nat) :
  positive_vector m p -> (j < m)%nat ->
  p j = Fin (real_of (p j)) /\ 0 < real_of (p j).
Proof.
  intros h hj. destruct (h j hj) as [q [-> hq]]. simpl. now split.
Qed.

Lemma div_pos (x y : R) : 0 < x -> 0 < y -> 0 < x / y.
Proof.
  intros hx hy. apply Rmult_lt_0_compat; [exact hx | now apply Rinv_0_lt_compat].
Qed.

Lemma div_nonneg (x y : R) : 0 <= x -> 0 < y -> 0 <= x / y.
Proof.
  intros hx hy. apply Rmult_le_pos; [exact hx |].
  now apply Rlt_le, Rinv_0_lt_compat.
Qed.

Lemma pp_fin (m : nat) (p : nat -> num) (i j : nat) :
  positive_vector m p -> (i < m)%nat -> (j < m)%nat ->
  BTMLE.pp p i j = Fin (real_of (p j) + real_of (p i)).
Proof.
  intros hp hi hj. unfold BTMLE.pp.
  destruct (hp j hj) as [qj [ej _]]. destruct (hp i hi) as [qi [ei _]].
  rewrite ej, ei. reflexivity.
Qed.

Lemma unnormalized_positive (alpha : ndarray2) (p : nat -> num) :
  count_matrix alpha -> every_item_wins alpha ->
  positive_vector (rows alpha) p ->
  positive_vector (rows alpha) (BTMLE.unnormalized alpha p).
Proof.
  intros hc hw hp i hi.
  set (q := fun j => real_of (p j)).
  set (a := fun i j => real_of (at2 alpha i j)).
  assert (hq : forall j, (j < rows alpha)%nat -> 0 < q j).
  { intros j hj. apply (positive_entry _ p j hp hj). }
  assert (hterm : forall j, (j < rows alpha)%nat ->
            Num.div (BTMLE.n alpha i j) (BTMLE.pp p i j) =
            Fin ((a i j + a j i) / (q j + q i))).
  { intros j hj. destruct (btmle_n alpha hc i j hi hj) as [en _].
    rewrite en, (pp_fin _ p i j hp hi hj).
    apply div_fin. change (q j + q i <> 0).
    pose proof (hq j hj). pose proof (hq i hi). lra. }
  destruct (hw i hi) as [j0 [w0 [hj0 [e0 hw0]]]].
  assert (ha0 : 0 < a i j0) by (unfold a; rewrite e0; exact hw0).
  assert (hnn : forall j, (j < rows alpha)%nat -> 0 <= a i j /\ 0 <= a j i).
  { intros j hj. split; [apply (btmle_entry alpha hc i j hi hj) |
                         apply (btmle_entry alpha hc j i hj hi)]. }
  unfold BTMLE.unnormalized, BTMLE.M.
  rewrite (sum_upto_fin _ _ _ hterm).
  destruct (btmle_row_total alpha hc i hi) as [-> _]. fold a.
  assert (hd : 0 < Num.rsum (rows alpha) (fun j => (a i j + a j i) / (q j + q i))).
  { apply (rsum_pos _ _ j0).
    - intros j hj. apply div_nonneg.
      + destruct (hnn j hj). lra.
      + pose proof (hq j hj). pose proof (hq i hi). lra.
    - exact hj0.
    - apply div_pos.
      + destruct (hnn j0 hj0). lra.
      + pose proof (hq j0 hj0). pose proof (hq i hi). lra. }
  assert (hn : 0 < Num.rsum (rows alpha) (a i)).
  { apply (rsum_pos _ _ j0); [intros j hj; apply (hnn j hj) | exact hj0 | exact ha0]. }
  rewrite div_fin by lra.
  eexists. split; [reflexivity |]. now apply div_pos.
Qed.

Lemma update_positive (alpha : ndarray2) (p : nat -> num) :
  count_matrix alpha -> every_item_wins alpha -> rows alpha <> 0%nat ->
  positive_vector (rows alpha) p ->
  positive_vector (rows alpha) (BTMLE.update alpha p).
Proof.
  intros hc hw nz hp i hi.
  pose proof (unnormalized_positive alpha p hc hw hp) as hu.
  set (x := fun j => real_of (BTMLE.unnormalized alpha p j)).
  assert (hx : forall j, (j < rows alpha)%nat ->
                 BTMLE.unnormalized alpha p j = Fin (x j)).
  { intros j hj. apply (positive_entry _ _ j hu hj). }
  assert (hs : 0 < Num.rsum (rows alpha) x).
  { apply (rsum_pos _ _ 0%nat).
    - intros j hj. apply Rlt_le, (positive_entry _ _ j hu hj).
    - lia.
    - apply (positive_entry _ _ 0%nat hu). lia. }
  unfold BTMLE.update, BTMLE.M.
  rewrite (sum_upto_fin _ _ x hx), (hx i hi).
  rewrite div_fin by lra.
  eexists. split; [reflexivity |].
  apply div_pos; [apply (positive_entry _ _ i hu hi) | exact hs].
Qed.




(** ** BTMLE: what a returning call went through *)

Lemma btmle_fit_ok (alpha : ndarray2) (kw : kwargs) (fuel : nat) (r : result) :
  BTMLE.fit alpha kw fuel = Ok r ->
  rows alpha = cols alpha /\ rows alpha <> 0%nat /\
  exists st, BTMLE.loop alpha fuel (BTMLE.init alpha) = Ok st /\
             BTMLE.finish alpha st = Ok r.
Proof.
  unfold BTMLE.fit. intro h.
  destruct (Nat.eqb (rows alpha) (cols alpha)) eqn:sq; [| discriminate].
  cbn [py_assert bind] in h. unfold BTMLE.M in h.
  destruct (Nat.eqb (rows alpha) 0) eqn:nz; [discriminate |].
  cbn [bind] in h.
  destruct (BTMLE.loop alpha fuel (BTMLE.init alpha)) as [st | e |] eqn:hl;
    try discriminate.
  cbn [bind] in h.
  apply Nat.eqb_eq in sq. apply Nat.eqb_neq in nz.
  repeat split; try assumption. now exists st.
Qed.

Lemma btmle_fit_of_loop (alpha : ndarray2) (kw : kwargs) (fuel : nat)
  (st : BTMLE.state) :
  rows alpha = cols alpha -> rows alpha <> 0%nat ->
  BTMLE.loop alpha fuel (BTMLE.init alpha) = Ok st ->
  BTMLE.fit alpha kw fuel = BTMLE.finish alpha st.
Proof.
  intros sq nz hl. unfold BTMLE.fit.
  apply Nat.eqb_eq in sq. rewrite sq. cbn [py_assert bind].
  apply Nat.eqb_neq in nz. unfold BTMLE.M at 1. rewrite nz. cbn [bind].
  rewrite hl. reflexivity.
Qed.

Lemma finish_ok (alpha : ndarray2) (st : BTMLE.state) (r : result) :
  BTMLE.finish alpha st = Ok r ->
  exists cova,
    numpy_pinv (BTMLE.bordered alpha (BTMLE.p st)) = Ok cova /\
    quality_scores r =
      tolist (mk1 (rows alpha) (fun i => Num.log (BTMLE.p st i))) /\
    quality_scores_std r =
      Some (tolist (mk1 (rows alpha)
                      (fun i => Num.div (Num.sqrt (BTMLE.vari cova i))
                                        (BTMLE.p st i)))).
Proof.
  unfold BTMLE.finish. intro h.
  destruct (numpy_pinv (BTMLE.bordered alpha (BTMLE.p st))) as [cova | e |];
    try discriminate.
  cbn [bind] in h. injection h as <-. exists cova. repeat split.
Qed.


(** ** BTMLE on a symmetric matrix: the uniform vector is a fixed point *)

Lemma rsum_const (k : nat) (c : R) : Num.rsum k (fun _ => c) = INR k * c.
Proof.
  induction k as [| k ih].
  - simpl. lra.
  - cbn [Num.rsum]. rewrite ih, S_INR. lra.
Qed.

Section BtmleSymmetric.

Variable alpha : ndarray2.
Hypothesis counts : count_matrix alpha.
Hypothesis sym : symmetric alpha.
Hypothesis wins : every_item_wins alpha.
Hypothesis nonempty : rows alpha <> 0%nat.

Let M : nat := rows alpha.
Let a (i j : nat) : R := real_of (at2 alpha i j).
Let c : R := / INR M.

Lemma usym_c_pos : 0 < c.
Proof. apply Rinv_0_lt_compat, lt_0_INR. unfold M. lia. Qed.

Lemma usym_p0 (i : nat) : BTMLE.p0 alpha i = Fin c.
Proof.
  unfold BTMLE.p0, BTMLE.M. fold M. cbn [Num.mul]. f_equal.
  unfold c. lra.
Qed.

Lemma usym_a (i j : nat) : (i < M)%nat -> (j < M)%nat -> a j i = a i j.
Proof. intros hi hj. unfold a. now rewrite (sym i j hi hj). Qed.

Lemma usym_row_pos (i : nat) : (i < M)%nat -> 0 < Num.rsum M (a i).
Proof.
  intro hi. destruct (wins i hi) as [j0 [w0 [hj0 [e0 hw0]]]].
  apply (rsum_pos _ _ j0).
  - intros j hj. apply (btmle_entry alpha counts i j hi hj).
  - exact hj0.
  - unfold a. rewrite e0. exact hw0.
Qed.

Lemma usym_unnormalized (i : nat) :
  (i < M)%nat -> BTMLE.unnormalized alpha (BTMLE.p0 alpha) i = Fin c.
Proof.
  intro hi. pose proof usym_c_pos as hc. pose proof (usym_row_pos i hi) as hw.
  unfold BTMLE.unnormalized, BTMLE.M. fold M.
  rewrite (sum_upto_fin M _ (fun j => a i j * / c)).
  - destruct (btmle_row_total alpha counts i hi) as [-> _].
    change (Num.rsum (rows alpha) (fun j => real_of (at2 alpha i j)))
      with (Num.rsum M (a i)).
    rewrite rsum_scale.
    assert (hd : Num.rsum M (a i) * / c <> 0).
    { assert (0 < / c) by now apply Rinv_0_lt_compat. nra. }
    rewrite div_fin by exact hd. f_equal. field. split; lra.
  - intros j hj. destruct (btmle_n alpha counts i j hi hj) as [-> _].
    unfold BTMLE.pp. rewrite !usym_p0. cbn [Num.add].
    rewrite div_fin by lra. f_equal.
    change (real_of (at2 alpha i j)) with (a i j).
    change (real_of (at2 alpha j i)) with (a j i).
    rewrite (usym_a i j hi hj). field. lra.
Qed.

Lemma usym_update (i : nat) :
  (i < M)%nat -> BTMLE.update alpha (BTMLE.p0 alpha) i = Fin c.
Proof.
  intro hi. pose proof usym_c_pos as hc.
  assert (hm : 0 < INR M) by (apply lt_0_INR; unfold M; lia).
  unfold BTMLE.update, BTMLE.M. fold M.
  rewrite (sum_upto_fin M _ (fun _ => c)) by (intros j hj; now apply usym_unnormalized).
  rewrite (usym_unnormalized i hi), rsum_const.
  assert (h1 : INR M * c = 1) by (unfold c; field; lra).
  rewrite h1, div_fin by lra. f_equal. lra.
Qed.

Lemma usym_body : BTMLE.body alpha (BTMLE.init alpha) = Ok (uniform_state alpha).
Proof.
  unfold BTMLE.body. cbn [BTMLE.p BTMLE.init BTMLE.iteration].
  rewrite (linalg_norm_fin _ (fun _ => 0)).
  - cbn [len]. rewrite rsum_zero by (intros; lra). rewrite sqrt_0.
    cbn [bind].
    rewrite (linalg_norm_fin (mk1 1 (fun _ => Fin 0)) (fun _ => 0))
      by reflexivity.
    reflexivity.
  - cbn [len at1]. unfold BTMLE.M. fold M. intros j hj.
    rewrite (usym_update j hj), usym_p0. cbn [Num.sub Num.neg Num.add].
    f_equal. lra.
Qed.

Lemma usym_loop (fuel : nat) :
  BTMLE.loop alpha (S fuel) (BTMLE.init alpha) = Ok (uniform_state alpha).
Proof.
  rewrite btmle_loop_eq, init_change_large, usym_body. cbn [bind].
  rewrite btmle_loop_eq. cbn [BTMLE.change uniform_state].
  rewrite gtb_thr_false by lra. reflexivity.
Qed.

Lemma usym_fit (kw : kwargs) (fuel : nat) :
  BTMLE.fit alpha kw (S fuel) = BTMLE.finish alpha (uniform_state alpha).
Proof.
  apply btmle_fit_of_loop; [apply counts | exact nonempty | apply usym_loop].
Qed.

End BtmleSymmetric.

(** ** The information matrix after the loop *)

Lemma lbda_fin (alpha : ndarray2) (p : nat -> num) (q : nat -> R) (i j : nat) :
  count_matrix alpha ->
  (forall k, (k < rows alpha)%nat -> p k = Fin (q k) /\ 0 < q k) ->
  (i < rows alpha)%nat -> (j < rows alpha)%nat ->
  BTMLE.lbda alpha p i j = Fin (lbda_real alpha q i j).
Proof.
  intros hc hp hi hj.
  destruct (hp i hi) as [ei hqi]. destruct (hp j hj) as [ej hqj].
  unfold BTMLE.lbda, lbda_real.
  assert (hij : BTMLE.lbda_ij alpha p i j =
                Fin ((real_of (at2 alpha i j) + real_of (at2 alpha j i)) /
                     (q j + q i) * 2)).
  { unfold BTMLE.lbda_ij, BTMLE.pp.
    destruct (btmle_n alpha hc i j hi hj) as [-> _].
    rewrite ei, ej. cbn [Num.add]. rewrite div_fin by lra. reflexivity. }
  rewrite hij.
  destruct (Nat.eqb i j); [| reflexivity].
  unfold BTMLE.lbda_ii, BTMLE.M.
  rewrite (sum_upto_fin _ _
             (fun k => - real_of (at2 alpha i k) / (q i * q i) +
                       (real_of (at2 alpha i k) + real_of (at2 alpha k i)) /
                       ((q k + q i) * (q k + q i)))).
  - reflexivity.
  - intros k hk. destruct (hp k hk) as [ek hqk].
    destruct (btmle_n alpha hc i k hi hk) as [-> _].
    destruct (btmle_entry alpha hc i k hi hk) as [-> _].
    unfold BTMLE.pp, Num.sqr. rewrite ei, ek. cbn [Num.neg Num.add Num.mul].
    rewrite !div_fin by nra. reflexivity.
Qed.

Lemma penrose_ext (m n : nat) (A A' X : rmat) :
  (forall i j, (i < m)%nat -> (j < n)%nat -> A i j = A' i j) ->
  penrose m n A X -> penrose m n A' X.
Proof.
  intros e [h1 [h2 [h3 h4]]].
  assert (eAX : forall i j, (i < m)%nat -> rmul n A' X i j = rmul n A X i j).
  { intros i j hi. unfold rmul. apply rsum_ext. intros l hl.
    now rewrite (e i l hi hl). }
  assert (eXA : forall i j, (j < n)%nat -> rmul m X A' i j = rmul m X A i j).
  { intros i j hj. unfold rmul. apply rsum_ext. intros l hl.
    now rewrite (e l j hl hj). }
  repeat split.
  - intros i j hi hj. rewrite <- (e i j hi hj), <- (h1 i j hi hj).
    unfold rmul at 1 3. apply rsum_ext. intros l hl.
    rewrite (eAX i l hi), (e l j hl hj). reflexivity.
  - intros i j hi hj. rewrite <- (h2 i j hi hj).
    unfold rmul at 1 3. apply rsum_ext. intros l hl.
    rewrite (eXA i l hl). reflexivity.
  - intros i j hi hj. rewrite (eAX i j hi), (eAX j i hj). now apply h3.
  - intros i j hi hj. rewrite (eXA i j hj), (eXA j i hi). now apply h4.
Qed.

Lemma bordered_fin (alpha : ndarray2) (p : nat -> num) (q : nat -> R) (i j : nat) :
  count_matrix alpha ->
  (forall k, (k < rows alpha)%nat -> p k = Fin (q k) /\ 0 < q k) ->
  at2 (BTMLE.bordered alpha p) i j =
    Fin (if Nat.ltb i (rows alpha)
         then (if Nat.ltb j (rows alpha) then - lbda_real alpha q i j else 1)
         else (if Nat.ltb j (rows alpha) then 1 else 0)).
Proof.
  intros hc hp. cbn [BTMLE.bordered at2]. unfold BTMLE.M.
  destruct (Nat.ltb i (rows alpha)) eqn:hi;
    destruct (Nat.ltb j (rows alpha)) eqn:hj; try reflexivity.
  apply Nat.ltb_lt in hi, hj.
  rewrite (lbda_fin alpha p q i j hc hp hi hj). reflexivity.
Qed.

Lemma bordered_all_finite (alpha : ndarray2) (p : nat -> num) :
  count_matrix alpha -> positive_vector (rows alpha) p ->
  all_finite2 (BTMLE.bordered alpha p) = true.
Proof.
  intros hc hp. apply all_finite2_true. intros i j _ _.
  rewrite (bordered_fin alpha p (fun k => real_of (p k)) i j hc).
  - reflexivity.
  - intros k hk. apply (positive_entry _ p k hp hk).
Qed.

(** ** BTMLE on [tied_matrix] *)

Ltac upto3 i hi :=
  destruct i as [| [| [| i]]]; [ | | | exfalso; simpl in hi; lia ].

Ltac upto4 i hi :=
  destruct i as [| [| [| [| i]]]]; [ | | | | exfalso; simpl in hi; lia ].

Lemma tied_counts : count_matrix tied_matrix.
Proof.
  split; [reflexivity |]. intros i j hi hj.
  upto3 i hi; upto3 j hj; simpl; eexists; (split; [reflexivity | lra]).
Qed.

Lemma tied_symmetric : symmetric tied_matrix.
Proof.
  intros i j hi hj. upto3 i hi; upto3 j hj; reflexivity.
Qed.

Lemma tied_wins : every_item_wins tied_matrix.
Proof.
  intros i hi. upto3 i hi.
  - exists 1%nat, 32. simpl. repeat split; [lia | lra].
  - exists 0%nat, 32. simpl. repeat split; [lia | lra].
  - exists 0%nat, 1. simpl. repeat split; [lia | lra].
Qed.

Lemma tied_nonempty : rows tied_matrix <> 0%nat.
Proof. simpl. lia. Qed.

Lemma tied_p (k : nat) :
  (k < rows tied_matrix)%nat ->
  BTMLE.update tied_matrix (BTMLE.p0 tied_matrix) k = Fin (/ 3) /\ 0 < / 3.
Proof.
  intro hk. split; [| lra].
  rewrite (usym_update tied_matrix tied_counts tied_symmetric tied_wins
             tied_nonempty k hk).
  f_equal. simpl. f_equal. lra.
Qed.

Lemma tied_bordered_entries (i j : nat) :
  (i < 4)%nat -> (j < 4)%nat ->
  real_of (at2 (BTMLE.bordered tied_matrix
                  (BTMLE.update tied_matrix (BTMLE.p0 tied_matrix))) i j) =
  tied_bordered i j.
Proof.
  intros hi hj.
  rewrite (bordered_fin tied_matrix _ (fun _ => / 3) i j tied_counts tied_p).
  cbn [real_of].
  upto4 i hi; upto4 j hj;
    cbv [lbda_real tied_bordered rmat_of nth Nat.ltb Nat.leb Nat.eqb rows
         tied_matrix of_rows at2 real_of Num.rsum];
    lra.
Qed.

Lemma tied_inverse_penrose : penrose 4 4 tied_bordered tied_inverse.
Proof.
  repeat split; intros i j hi hj; upto4 i hi; upto4 j hj;
    cbv [rmul Num.rsum tied_bordered tied_inverse rmat_of nth]; lra.
Qed.

Ltac penrose_at h i j :=
  let e := fresh "e" in
  pose proof (h i j ltac:(lia) ltac:(lia)) as e;
  cbv [rmul Num.rsum tied_bordered rmat_of nth] in e.

(** The pseudo-inverse of an invertible matrix is its inverse: here on the
    diagonal entries the code reads. *)
Lemma tied_pinv_diagonal :
  let X := pinv_real 4 4
             (fun k l =>
                real_of (at2 (BTMLE.bordered tied_matrix
                                (BTMLE.update tied_matrix (BTMLE.p0 tied_matrix)))
                           k l)) in
  X 0%nat 0%nat = -226 / 681 /\ X 1%nat 1%nat = -226 / 681 /\
  X 2%nat 2%nat = -4 / 3.
Proof.
  set (B := fun k l =>
              real_of (at2 (BTMLE.bordered tied_matrix
                              (BTMLE.update tied_matrix (BTMLE.p0 tied_matrix)))
                         k l)).
  assert (hex : exists X, penrose 4 4 B X).
  { exists tied_inverse. apply (penrose_ext 4 4 tied_bordered).
    - intros i j hi hj. symmetry. now apply tied_bordered_entries.
    - apply tied_inverse_penrose. }
  pose proof (epsilon_spec (inhabits (fun _ _ => 0)) (penrose 4 4 B) hex) as hX.
  change (epsilon (inhabits (fun _ _ => 0)) (penrose 4 4 B))
    with (pinv_real 4 4 B) in hX.
  apply (penrose_ext 4 4 B tied_bordered) in hX;
    [| intros i j hi hj; now apply tied_bordered_entries].
  destruct hX as [h1 _].
  intro X. subst X. generalize dependent (pinv_real 4 4 B). intros X h1.
  penrose_at h1 0%nat 0%nat. penrose_at h1 0%nat 1%nat.
  penrose_at h1 0%nat 2%nat. penrose_at h1 0%nat 3%nat.
  penrose_at h1 1%nat 0%nat. penrose_at h1 1%nat 1%nat.
  penrose_at h1 1%nat 2%nat. penrose_at h1 1%nat 3%nat.
  penrose_at h1 2%nat 0%nat. penrose_at h1 2%nat 1%nat.
  penrose_at h1 2%nat 2%nat. penrose_at h1 2%nat 3%nat.
  penrose_at h1 3%nat 0%nat. penrose_at h1 3%nat 1%nat.
  penrose_at h1 3%nat 2%nat. penrose_at h1 3%nat 3%nat.
  clear h1 hex.
  repeat split; lra.
Qed.

Lemma tied_positive :
  positive_vector (rows tied_matrix)
    (BTMLE.update tied_matrix (BTMLE.p0 tied_matrix)).
Proof. intros k hk. exists (/ 3). now apply tied_p. Qed.

(** C3 (what the code does on [tied_matrix]).  The call returns after one
    pass with [p] uniform; the variances read off the pseudo-inverse are
    [-226/681], [-226/681] and [-4/3], their square roots are [NaN], and so is
    every entry of [quality_scores_std]. *)
Theorem btmle_std_nan_on_tied_matrix :
  exists r cova,
    BTMLE.fit tied_matrix [] 1 = Ok r /\
    numpy_pinv (BTMLE.bordered tied_matrix
                  (BTMLE.p (uniform_state tied_matrix))) = Ok cova /\
    BTMLE.vari cova 0 = Fin (-226 / 681) /\
    BTMLE.vari cova 1 = Fin (-226 / 681) /\
    BTMLE.vari cova 2 = Fin (-4 / 3) /\
    quality_scores_std r = Some [NaN; NaN; NaN].
Proof.
  pose proof tied_pinv_diagonal as hd. cbv zeta in hd.
  destruct hd as [h0 [h1 h2]].
  assert (hfin : all_finite2
                   (BTMLE.bordered tied_matrix
                      (BTMLE.p (uniform_state tied_matrix))) = true).
  { apply bordered_all_finite; [apply tied_counts | apply tied_positive]. }
  eexists. eexists.
  split.
  { rewrite (usym_fit tied_matrix tied_counts tied_symmetric tied_wins
               tied_nonempty [] 0).
    unfold BTMLE.finish, numpy_pinv, pinv_with. rewrite hfin.
    cbn [bind]. reflexivity. }
  split.
  { unfold numpy_pinv, pinv_with. rewrite hfin. reflexivity. }
  cbn [BTMLE.vari at2 rows cols BTMLE.bordered BTMLE.p uniform_state].
  unfold BTMLE.M. cbn [rows tied_matrix of_rows].
  cbn [BTMLE.bordered at2] in h0, h1, h2.
  unfold BTMLE.M in h0, h1, h2. cbn [rows tied_matrix of_rows] in h0, h1, h2.
  rewrite h0, h1, h2.
  repeat (split; [reflexivity |]).
  cbn [quality_scores_std]. f_equal.
  unfold tolist. cbn [len at1 seq map].
  rewrite h0, h1, h2.
  rewrite !sqrt_neg by lra. reflexivity.
Qed.

Lemma returned_ok (o : outcome result) (r : result) : o = Ok r -> o = Ok (returned o).
Proof. intros ->. reflexivity. Qed.

Lemma pair_wins : every_item_wins pair_matrix.
Proof.
  intros i hi. destruct i as [| [| i]]; [| | exfalso; simpl in hi; lia].
  - exists 1%nat, 1. simpl. repeat split; [lia | lra].
  - exists 0%nat, 1. simpl. repeat split; [lia | lra].
Qed.

Lemma btmle_symmetric_returns (alpha : ndarray2) (kw : kwargs) (fuel : nat) :
  count_matrix alpha -> symmetric alpha -> every_item_wins alpha ->
  rows alpha <> 0%nat ->
  exists r, BTMLE.fit alpha kw (S fuel) = Ok r.
Proof.
  intros hc hs hw nz.
  rewrite (usym_fit alpha hc hs hw nz kw fuel).
  unfold BTMLE.finish, numpy_pinv, pinv_with.
  rewrite bordered_all_finite.
  - cbn [bind]. eexists. reflexivity.
  - exact hc.
  - cbn [BTMLE.p uniform_state].
    apply update_positive; try assumption. now apply p0_positive.
Qed.


(** ** BTMLE on an item without wins *)

Lemma add_nan_r (a : num) : Num.add a NaN = NaN.
Proof. destruct a; reflexivity. Qed.

Lemma div_nan_r (a : num) : Num.div a NaN = NaN.
Proof. destruct a; reflexivity. Qed.

Lemma sum_upto_nan (k : nat) (f : nat -> num) (j : nat) :
  (j < k)%nat -> f j = NaN -> Num.sum_upto k f = NaN.
Proof.
  induction k as [| k ih]; intros hj e; [lia |].
  cbn [Num.sum_upto]. destruct (Nat.eq_dec j k) as [-> | ne].
  - rewrite e. apply add_nan_r.
  - rewrite ih by (try lia; exact e). reflexivity.
Qed.

Lemma all_finite_not (k : nat) (f : nat -> num) (j : nat) :
  (j < k)%nat -> Num.finiteb (f j) = false -> all_finite k f = false.
Proof.
  intros hj e. destruct (all_finite k f) eqn:h; [| reflexivity].
  destruct (all_finite_elim k f j h hj) as [r hr].
  rewrite hr in e. discriminate.
Qed.

(** An item whose entry of [p] is zero and which was never compared with
    itself turns its next entry into [NaN]: the diagonal term is [0/0]. *)
Lemma update_nan_of_zero (alpha : ndarray2) (p : nat -> num) (i : nat) :
  (i < rows alpha)%nat -> at2 alpha i i = Fin 0 -> p i = Fin 0 ->
  BTMLE.update alpha p i = NaN.
Proof.
  intros hi hd hp.
  assert (hu : BTMLE.unnormalized alpha p i = NaN).
  { unfold BTMLE.unnormalized.
    rewrite (sum_upto_nan _ _ i hi); [apply div_nan_r |].
    unfold BTMLE.n, BTMLE.pp. rewrite hd, hp. cbn [Num.add].
    replace (0 + 0) with 0 by lra. apply div_zero_zero. }
  unfold BTMLE.update. rewrite hu. reflexivity.
Qed.

Lemma unnormalized_fin (alpha : ndarray2) (p : nat -> num) (q : nat -> R) (i : nat) :
  count_matrix alpha ->
  (forall k, (k < rows alpha)%nat -> p k = Fin (q k) /\ 0 < q k) ->
  (i < rows alpha)%nat ->
  Num.rsum (rows alpha)
    (fun j => (real_of (at2 alpha i j) + real_of (at2 alpha j i)) / (q j + q i)) <> 0 ->
  BTMLE.unnormalized alpha p i =
    Fin (Num.rsum (rows alpha) (fun j => real_of (at2 alpha i j)) /
         Num.rsum (rows alpha)
           (fun j => (real_of (at2 alpha i j) + real_of (at2 alpha j i)) /
                     (q j + q i))).
Proof.
  intros hc hp hi hd. unfold BTMLE.unnormalized, BTMLE.M.
  destruct (btmle_row_total alpha hc i hi) as [-> _].
  rewrite (sum_upto_fin _ _
             (fun j => (real_of (at2 alpha i j) + real_of (at2 alpha j i)) /
                       (q j + q i))).
  - now rewrite div_fin.
  - intros j hj. destruct (btmle_n alpha hc i j hi hj) as [-> _].
    destruct (hp i hi) as [ei hqi]. destruct (hp j hj) as [ej hqj].
    unfold BTMLE.pp. rewrite ei, ej. cbn [Num.add].
    rewrite div_fin by lra. reflexivity.
Qed.

Lemma update_fin (alpha : ndarray2) (p : nat -> num) (u : nat -> R) (i : nat) :
  (forall k, (k < rows alpha)%nat -> BTMLE.unnormalized alpha p k = Fin (u k)) ->
  Num.rsum (rows alpha) u <> 0 -> (i < rows alpha)%nat ->
  BTMLE.update alpha p i = Fin (u i / Num.rsum (rows alpha) u).
Proof.
  intros hu hs hi. unfold BTMLE.update, BTMLE.M.
  rewrite (sum_upto_fin _ _ u hu), (hu i hi). now rewrite div_fin.
Qed.

(** ** BTMLE on [sweep_matrix] *)


Lemma sweep_counts : count_matrix sweep_matrix.
Proof.
  split; [reflexivity |]. intros i j hi hj.
  upto3 i hi; upto3 j hj; simpl; eexists; (split; [reflexivity | lra]).
Qed.










(** ** The Thurstone objective *)

Lemma Phi_zero : Phi 0 = 1 / 2.
Proof.
  unfold Phi. rewrite RiemannInt_P9. unfold Rdiv at 2. rewrite Rmult_0_l. lra.
Qed.

Lemma ln_neg (x : R) : 0 < x -> x < 1 -> ln x < 0.
Proof.
  intros h0 h1. rewrite <- ln_1. now apply ln_increasing.
Qed.

Lemma log_cdf_at_zero (e : R) :
  0 < e ->
  Num.log (Num.add (norm_cdf (Num.sub (Fin 0) (Fin 0))) (Fin e)) =
    Fin (ln (1 / 2 + e)).
Proof.
  intro he. cbn [Num.sub Num.neg Num.add norm_cdf].
  replace (0 + - 0) with 0 by lra. rewrite Phi_zero.
  now rewrite log_fin by lra.
Qed.

Lemma log_ccdf_at_zero (e : R) :
  0 < e ->
  Num.log (Num.add (Num.sub (Fin 1) (norm_cdf (Num.sub (Fin 0) (Fin 0)))) (Fin e)) =
    Fin (ln (1 / 2 + e)).
Proof.
  intro he. cbn [Num.sub Num.neg Num.add norm_cdf].
  replace (0 + - 0) with 0 by lra. rewrite Phi_zero.
  rewrite log_fin by lra. f_equal. f_equal. lra.
Qed.

(** C1 (what the code does).  With one observed win and the optimizer's own
    start point [v = 0], the function handed to [minimize] is the sum itself,
    a negative number, and not its negation, which is positive: the solver
    minimizes the log-likelihood instead of maximizing it. *)
Theorem thurstone_objective_not_negated :
  exists x,
    Thurstone.llf_partial one_win (Thurstone.v0 one_win) = Ok (Fin x) /\
    x = 2 * ln (1 / 2 + / 100000000 / 2) /\ x < 0 /\
    neg_log_likelihood_spec (Thurstone.v0 one_win) one_win 2 = Ok (Fin (- x)) /\
    Thurstone.llf_partial one_win (Thurstone.v0 one_win) <>
      neg_log_likelihood_spec (Thurstone.v0 one_win) one_win 2.
Proof.
  set (e := / 100000000 / 2).
  assert (he : 0 < e) by (unfold e; lra).
  assert (hl : ln (1 / 2 + e) < 0) by (apply ln_neg; unfold e; lra).
  assert (hcode : Thurstone.llf_partial one_win (Thurstone.v0 one_win) =
                  Ok (Fin (2 * ln (1 / 2 + e)))).
  { unfold Thurstone.llf_partial, Thurstone.log_likelihood_function,
      Thurstone.sum2, Thurstone.M.
    cbn [rows one_win of_rows Nat.eqb Num.sum_upto at1 at2 Thurstone.v0 nth INR].
    replace (/ 100000000 / (1 + 1)) with e by (unfold e; lra).
    rewrite (log_cdf_at_zero e he), (log_ccdf_at_zero e he).
    cbn [Num.mul Num.add]. f_equal. f_equal. lra. }
  assert (hspec : neg_log_likelihood_spec (Thurstone.v0 one_win) one_win 2 =
                  Ok (Fin (- (2 * ln (1 / 2 + e))))).
  { unfold neg_log_likelihood_spec, Thurstone.sum2.
    cbn [rows one_win of_rows Nat.eqb Num.sum_upto at1 at2 Thurstone.v0 nth INR].
    replace (/ 100000000 / (1 + 1)) with e by (unfold e; lra).
    rewrite (log_cdf_at_zero e he), (log_ccdf_at_zero e he).
    cbn [Num.mul Num.add Num.neg]. f_equal. f_equal. lra. }
  exists (2 * ln (1 / 2 + e)).
  split; [exact hcode |]. split; [reflexivity |]. split; [lra |].
  split; [exact hspec |].
  rewrite hcode, hspec. intro h. injection h as h. lra.
Qed.

(** * Further properties of the code *)

(** ** Aggregation of the observations *)

Lemma nan_to_zero_real_of (x : num) :
  x = NaN \/ (exists w, x = Fin w /\ 0 <= w) ->
  Num.nan_to_zero x = Fin (real_of x) /\ 0 <= real_of x.
Proof.
  intros [-> | [w [-> hw]]]; simpl; split; try reflexivity; lra.
Qed.

(** X1.  [np.nansum(..., axis=2)] reads a missing observation as zero: when
    every observation is missing or a finite non-negative count and the
    first two dimensions agree, the aggregated matrix is a square matrix of
    finite non-negative counts, each the sum of the recorded observations. *)
Theorem nansum_gives_count_matrix (arr : ndarray3) :
  dim0 arr = dim1 arr -> observations_ok arr ->
  count_matrix (nansum_axis2 arr) /\
  forall i j, (i < dim0 arr)%nat -> (j < dim1 arr)%nat ->
    at2 (nansum_axis2 arr) i j =
      Fin (Num.rsum (dim2 arr) (fun k => real_of (at3 arr i j k))).
Proof.
  intros sq ho.
  assert (hv : forall i j, (i < dim0 arr)%nat -> (j < dim1 arr)%nat ->
            at2 (nansum_axis2 arr) i j =
              Fin (Num.rsum (dim2 arr) (fun k => real_of (at3 arr i j k)))).
  { intros i j hi hj. cbn [nansum_axis2 at2].
    apply sum_upto_fin. intros k hk.
    apply (nan_to_zero_real_of _ (ho i j k hi hj hk)). }
  split; [| exact hv].
  split; [exact sq |]. cbn [rows nansum_axis2]. intros i j hi hj.
  eexists. split; [apply hv; [exact hi | rewrite <- sq; exact hj] |].
  apply rsum_nonneg. intros k hk.
  apply (nan_to_zero_real_of (at3 arr i j k)).
  apply ho; [exact hi | rewrite <- sq; exact hj | exact hk].
Qed.

Lemma nansum_gives_count_matrix_witness :
  count_matrix (nansum_axis2 sparse_observations) /\
  forall i j, (i < dim0 sparse_observations)%nat ->
              (j < dim1 sparse_observations)%nat ->
    at2 (nansum_axis2 sparse_observations) i j =
      Fin (Num.rsum (dim2 sparse_observations)
             (fun k => real_of (at3 sparse_observations i j k))).
Proof.
  apply (nansum_gives_count_matrix sparse_observations eq_refl).
  intros i j k _ _ _. cbn [at3 sparse_observations].
  destruct (Nat.eqb k 1); [now left | right].
  exists 1. split; [reflexivity | lra].
Defined.

(** ** Lists read off arrays *)

Lemma length_tolist (a : ndarray1) : List.length (tolist a) = len a.
Proof. unfold tolist. now rewrite length_map, length_seq. Qed.

(** ** Invariants of the BTNR loop *)

Lemma btnr_body_ok (wm : ndarray2) (st st' : BTNR.state) :
  BTNR.body wm st = Ok st' ->
  exists P,
    scipy_pinv (BTNR.d2L wm st) = Ok P /\
    st' = BTNR.mk_state (S (BTNR.iteration st))
            (fun i => Num.sub (BTNR.gamma st i) (at1 (BTNR.change_new wm P st) i))
            (BTNR.change_new wm P st) (BTNR.y_second wm st) (BTNR.rus_new wm st).
Proof.
  unfold BTNR.body. intro h.
  destruct (scipy_pinv (BTNR.d2L wm st)) as [P | e |]; try discriminate.
  cbn [bind] in h.
  destruct (linalg_norm (BTNR.change_new wm P st)) as [c | e |]; try discriminate.
  cbn [bind] in h. injection h as <-. now exists P.
Qed.

Lemma btnr_loop_reachable (wm : ndarray2) (fuel : nat) (st st' : BTNR.state) :
  btnr_reachable wm st ->
  BTNR.loop wm fuel st = Ok st' ->
  btnr_reachable wm st' /\
  exists c, linalg_norm (BTNR.change st') = Ok c /\ Num.gtb c DELTA_THR = false.
Proof.
  revert st. induction fuel as [| fuel ih]; intros st hr h;
    rewrite btnr_loop_eq in h;
    destruct (linalg_norm (BTNR.change st)) as [c | e |] eqn:hn; try discriminate;
    cbn [bind] in h;
    destruct (Num.gtb c DELTA_THR) eqn:hg.
  - discriminate.
  - injection h as <-. split; [exact hr | now exists c].
  - destruct (BTNR.body wm st) as [st1 | e |] eqn:hb; try discriminate.
    cbn [bind] in h. apply (ih st1); [| exact h].
    now apply (btnr_reach_pass wm st st1 c).
  - injection h as <-. split; [exact hr | now exists c].
Qed.

Lemma btnr_reachable_last (wm : ndarray2) (st : BTNR.state) :
  btnr_reachable wm st -> BTNR.gamma st (rows wm - 1) = Fin 0.
Proof.
  intro hr. induction hr as [| st st' c hr ih hn hg hb].
  - reflexivity.
  - destruct (btnr_body_ok wm st st' hb) as [P [_ ->]].
    cbn [BTNR.gamma BTNR.change_new at1]. rewrite ih.
    unfold BTNR.nmo, BTNR.n. rewrite Nat.ltb_irrefl.
    cbn [Num.sub Num.neg Num.add]. f_equal. lra.
Qed.

Lemma btnr_reachable_mask (wm : ndarray2) (st : BTNR.state) (i j : nat) :
  btnr_reachable wm st -> BTNR.gind wm i j = false ->
  BTNR.y st i j = Fin 0 /\ BTNR.rus st i j = Fin 0.
Proof.
  intros hr hg. induction hr as [| st st' c hr [ihy ihr] hn hgt hb].
  - split; reflexivity.
  - destruct (btnr_body_ok wm st st' hb) as [P [_ ->]].
    cbn [BTNR.y BTNR.rus].
    unfold BTNR.y_second, BTNR.y_first, BTNR.rus_new. rewrite hg. now split.
Qed.

Lemma btnr_reachable_passes (wm : ndarray2) (st : BTNR.state) :
  btnr_reachable wm st -> st = BTNR.init \/ (1 <= BTNR.iteration st)%nat.
Proof.
  intro hr. destruct hr as [| st st' c hr hn hg hb]; [now left | right].
  destruct (btnr_body_ok wm st st' hb) as [P [_ ->]]. cbn [BTNR.iteration]. lia.
Qed.

(** X4.  The BTNR loop keeps the last entry of [gamma] at zero: it is zero in
    every state the loop reaches, in particular in the state it converges in,
    so the closing assignment [scores[-1] = 0.0] leaves the converged vector
    as it is. *)
Theorem btnr_keeps_last_gamma_zero (wm : ndarray2) :
  (forall st, btnr_reachable wm st -> BTNR.gamma st (rows wm - 1) = Fin 0) /\
  (forall fuel st, BTNR.loop wm fuel (BTNR.init) = Ok st ->
     btnr_reachable wm st /\
     tolist (BTNR.raw_scores wm st) = tolist (mk1 (rows wm) (BTNR.gamma st))).
Proof.
  split; [apply btnr_reachable_last |].
  intros fuel st h.
  destruct (btnr_loop_reachable wm fuel _ st (btnr_reach_init wm) h) as [hr _].
  split; [exact hr |].
  unfold tolist. cbn [len at1 BTNR.raw_scores]. unfold BTNR.n.
  apply map_ext. intro i.
  destruct (Nat.eqb i (rows wm - 1)) eqn:e; [| reflexivity].
  apply Nat.eqb_eq in e. subst i. symmetry. now apply btnr_reachable_last.
Qed.

(** X5.  Pairs of items that were never compared stay out of the BTNR
    iteration: outside the mask [gind] the arrays [y] and [rus] are zero in
    every state the loop reaches. *)
Theorem btnr_unobserved_pairs_stay_zero (wm : ndarray2) (st : BTNR.state) (i j : nat) :
  btnr_reachable wm st -> BTNR.gind wm i j = false ->
  BTNR.y st i j = Fin 0 /\ BTNR.rus st i j = Fin 0.
Proof. apply btnr_reachable_mask. Qed.

Lemma pair_reachable : btnr_reachable pair_matrix (sym_state pair_matrix).
Proof.
  destruct (init_norm_large) as [r [hn hr]].
  apply (btnr_reach_pass pair_matrix BTNR.init _ (Fin r)).
  - apply btnr_reach_init.
  - exact hn.
  - apply gtb_thr_true. lra.
  - apply sym_body; [apply pair_counts | apply pair_symmetric].
Qed.

Lemma btnr_unobserved_pairs_stay_zero_witness :
  BTNR.y (sym_state pair_matrix) 0 0 = Fin 0 /\
  BTNR.rus (sym_state pair_matrix) 0 0 = Fin 0.
Proof.
  apply (btnr_unobserved_pairs_stay_zero pair_matrix (sym_state pair_matrix) 0 0
           pair_reachable).
  unfold BTNR.gind, BTNR.gm. cbn [at2 pair_matrix of_rows nth Num.add].
  apply gtb_fin_false. lra.
Defined.

Lemma gtb_thr_false_inv (r : R) :
  Num.gtb (Fin r) DELTA_THR = false -> r <= / 100000000.
Proof.
  unfold DELTA_THR. simpl.
  destruct (Rlt_dec (/ 100000000) r) as [h | h]; [discriminate | intros _; lra].
Qed.

(** X6.  Returning means converged: when BTNR or BTMLE returns, the loop has
    made at least one pass and the size of its last update, a finite
    non-negative number, is at most [1e-8]. *)
Theorem returning_call_has_converged (wm : ndarray2) (kw : kwargs) (fuel : nat) :
  (forall r, BTNR.fit wm kw fuel = Ok r ->
     exists st c,
       BTNR.loop wm fuel (BTNR.init) = Ok st /\
       (1 <= BTNR.iteration st)%nat /\
       linalg_norm (BTNR.change st) = Ok (Fin c) /\ 0 <= c <= / 100000000) /\
  (forall r, BTMLE.fit wm kw fuel = Ok r ->
     exists st c,
       BTMLE.loop wm fuel (BTMLE.init wm) = Ok st /\
       (1 <= BTMLE.iteration st)%nat /\
       BTMLE.change st = Fin c /\ 0 <= c <= / 100000000).
Proof.
  split.
  - intros r h. destruct (btnr_fit_ok wm kw fuel r h) as [_ [_ [st [hl _]]]].
    destruct (btnr_loop_reachable wm fuel _ st (btnr_reach_init wm) hl)
      as [hr [c [hn hg]]].
    destruct (linalg_norm_ok _ _ hn) as [_ [x [-> hx]]].
    exists st, x. split; [exact hl |].
    pose proof (gtb_thr_false_inv x hg) as hle.
    split; [| split; [exact hn | lra]].
    destruct (btnr_reachable_passes wm st hr) as [-> | hit]; [| exact hit].
    exfalso. destruct init_norm_large as [r0 [hn0 hr0]].
    rewrite hn0 in hn. injection hn as ->. lra.
  - intros r h. destruct (btmle_fit_ok wm kw fuel r h) as [_ [_ [st [hl _]]]].
    destruct (loop_reachable wm fuel _ st (reach_init wm) hl) as [hr hg].
    assert (hcase : st = BTMLE.init wm \/
                    ((1 <= BTMLE.iteration st)%nat /\
                     exists c, BTMLE.change st = Fin c /\ 0 <= c)).
    { destruct hr as [| st0 st1 hr0 hg0 hb]; [now left | right].
      destruct (body_ok wm st0 st1 hb) as [_ [hit [_ hc]]].
      split; [lia | exact hc]. }
    destruct hcase as [-> | [hit [c [hc hc0]]]].
    + rewrite init_change_large in hg. discriminate.
    + exists st, c. split; [exact hl |]. split; [exact hit |].
      split; [exact hc |]. rewrite hc in hg.
      pose proof (gtb_thr_false_inv c hg). lra.
Qed.

Lemma returning_call_has_converged_witness :
  (exists st c,
     BTNR.loop pair_matrix 1 (BTNR.init) = Ok st /\
     (1 <= BTNR.iteration st)%nat /\
     linalg_norm (BTNR.change st) = Ok (Fin c) /\ 0 <= c <= / 100000000) /\
  (exists st c,
     BTMLE.loop pair_matrix 1 (BTMLE.init pair_matrix) = Ok st /\
     (1 <= BTMLE.iteration st)%nat /\
     BTMLE.change st = Fin c /\ 0 <= c <= / 100000000).
Proof.
  destruct (returning_call_has_converged pair_matrix [] 1) as [hn hm].
  split.
  - apply (hn (returned (BTNR.fit pair_matrix [] 1))).
    exact (returned_ok _ _
             (btnr_symmetric_fit pair_matrix [] 0 pair_counts pair_symmetric
                ltac:(simpl; lia))).
  - apply (hm (returned (BTMLE.fit pair_matrix [] 1))).
    destruct (btmle_symmetric_returns pair_matrix [] 0 pair_counts pair_symmetric
                pair_wins ltac:(simpl; lia)) as [r hr].
    exact (returned_ok _ r hr).
Defined.

Lemma btnr_keeps_last_gamma_zero_witness :
  BTNR.gamma (sym_state pair_matrix) (rows pair_matrix - 1) = Fin 0 /\
  btnr_reachable pair_matrix (sym_state pair_matrix) /\
  tolist (BTNR.raw_scores pair_matrix (sym_state pair_matrix)) =
    tolist (mk1 (rows pair_matrix) (BTNR.gamma (sym_state pair_matrix))).
Proof.
  destruct (btnr_keeps_last_gamma_zero pair_matrix) as [h1 h2].
  split.
  - apply h1, pair_reachable.
  - apply (h2 1%nat). apply sym_loop; [apply pair_counts | apply pair_symmetric].
Defined.

(** ** Z-scores *)

Lemma rsum_shift (k : nat) (x : nat -> R) (m : R) :
  Num.rsum k (fun i => x i + - m) = Num.rsum k x - INR k * m.
Proof.
  rewrite rsum_plus, rsum_const. lra.
Qed.

Lemma div_zero_zero_gen (x y : R) : x = 0 -> y = 0 -> Num.div (Fin x) (Fin y) = NaN.
Proof. intros -> ->. apply div_zero_zero. Qed.

Lemma sq_nonneg (r : R) : 0 <= r * r.
Proof. nra. Qed.

Lemma sq_pos (r : R) : r <> 0 -> 0 < r * r.
Proof. intro h. nra. Qed.

Section Zscore.

Variable s : ndarray1.
Variable x : nat -> R.
Hypothesis finite : forall i, (i < len s)%nat -> at1 s i = Fin (x i).
Hypothesis nonempty : len s <> 0%nat.

Let mu : R := Num.rsum (len s) x / INR (len s).
Let V : R := Num.rsum (len s) (fun i => (x i + - mu) * (x i + - mu)) / INR (len s).

Lemma zs_n_pos : 0 < INR (len s).
Proof. apply lt_0_INR. lia. Qed.

Lemma zs_mean : np_mean s = Fin mu.
Proof.
  unfold np_mean. rewrite (sum_upto_fin (len s) _ x finite).
  rewrite div_fin; [reflexivity |]. pose proof zs_n_pos. lra.
Qed.

Lemma zs_V_nonneg : 0 <= V.
Proof.
  unfold V. apply div_nonneg; [| apply zs_n_pos].
  apply rsum_nonneg. intros i _. apply sq_nonneg.
Qed.

Lemma zs_std : np_std s = Fin (R_sqrt.sqrt V).
Proof.
  unfold np_std. rewrite zs_mean. unfold np_mean. cbn [len at1].
  rewrite (sum_upto_fin (len s) _ (fun i => (x i + - mu) * (x i + - mu))).
  - rewrite div_fin by (pose proof zs_n_pos; lra).
    fold V. apply sqrt_fin, zs_V_nonneg.
  - intros i hi. rewrite (finite i hi). reflexivity.
Qed.

Lemma zs_centered : Num.rsum (len s) (fun i => x i + - mu) = 0.
Proof.
  rewrite rsum_shift. unfold mu. pose proof zs_n_pos. field. lra.
Qed.

(** Constant scores: the standard deviation is zero and every z-score is
    [0/0]. *)
Lemma zs_constant (c : R) (i : nat) :
  (forall k, (k < (len s))%nat -> x k = c) -> (i < (len s))%nat ->
  at1 (BTNR.zscore s) i = NaN.
Proof.
  intros hc hi.
  assert (hmu : mu = c).
  { unfold mu. rewrite (rsum_ext (len s) x (fun _ => c) hc), rsum_const.
    pose proof zs_n_pos. field. lra. }
  assert (hV : V = 0).
  { unfold V. rewrite (rsum_zero (len s)).
    - unfold Rdiv. apply Rmult_0_l.
    - intros k hk. rewrite (hc k hk), hmu. lra. }
  unfold BTNR.zscore. cbn [at1]. rewrite zs_mean, zs_std, (finite i hi).
  cbn [Num.sub Num.neg Num.add].
  apply div_zero_zero_gen.
  - rewrite (hc i hi), hmu. lra.
  - rewrite hV. apply sqrt_0.
Qed.

Lemma zs_V_pos (i j : nat) :
  (i < (len s))%nat -> (j < (len s))%nat -> x i <> x j -> 0 < V.
Proof.
  intros hi hj ne. unfold V. apply div_pos; [| apply zs_n_pos].
  destruct (Req_dec_T (x i) mu) as [e | d].
  - apply (rsum_pos _ _ j); [intros k _; apply sq_nonneg | exact hj |].
    apply sq_pos. rewrite <- e. lra.
  - apply (rsum_pos _ _ i); [intros k _; apply sq_nonneg | exact hi |].
    apply sq_pos. lra.
Qed.

Lemma zs_entry (i : nat) :
  0 < V -> (i < (len s))%nat ->
  at1 (BTNR.zscore s) i = Fin ((x i + - mu) / R_sqrt.sqrt V).
Proof.
  intros hV hi. unfold BTNR.zscore. cbn [at1].
  rewrite zs_mean, zs_std, (finite i hi). cbn [Num.sub Num.neg Num.add].
  apply div_fin. pose proof (sqrt_lt_R0 V hV). lra.
Qed.

Lemma zs_standard :
  0 < V ->
  np_mean (BTNR.zscore s) = Fin 0 /\ np_std (BTNR.zscore s) = Fin 1.
Proof.
  intro hV. pose proof (sqrt_lt_R0 V hV) as hs. pose proof zs_n_pos as hn.
  assert (hm : np_mean (BTNR.zscore s) = Fin 0).
  { unfold np_mean. change (len (BTNR.zscore s)) with (len s).
    rewrite (sum_upto_fin (len s) _ (fun i => (x i + - mu) * / R_sqrt.sqrt V))
      by (intros i hi; now apply zs_entry).
    rewrite div_fin by lra. f_equal.
    rewrite rsum_scale, zs_centered. field. split; lra. }
  split; [exact hm |].
  unfold np_std. rewrite hm. unfold np_mean. cbn [len]. 
  change (len (BTNR.zscore s)) with (len s).
  rewrite (sum_upto_fin (len s) _
             (fun i => (x i + - mu) * (x i + - mu) * / V)).
  - rewrite div_fin by lra.
    rewrite rsum_scale.
    replace (Num.rsum (len s) (fun i => (x i + - mu) * (x i + - mu)) * / V / INR (len s))
      with 1.
    + rewrite sqrt_fin by lra. now rewrite sqrt_1.
    + unfold V at 1. fold V.
      assert (hsum : Num.rsum (len s) (fun i => (x i + - mu) * (x i + - mu)) = V * INR (len s)).
      { unfold V. field. lra. }
      rewrite hsum. field. split; lra.
  - intros i hi. cbn [at1]. rewrite (zs_entry i hV hi).
    cbn [Num.sub Num.neg Num.add Num.sqr Num.mul]. f_equal.
    pose proof (sqrt_sqrt V (Rlt_le _ _ hV)) as hq.
    replace (/ V) with (/ R_sqrt.sqrt V * / R_sqrt.sqrt V)
      by (rewrite <- Rinv_mult, hq; reflexivity).
    unfold Rdiv. ring.
Qed.

End Zscore.

(** X7.  The optional post-processing standardizes: for finite scores that
    are not all equal, [(scores - mean) / std] has mean zero and standard
    deviation one (exact arithmetic). *)
Theorem zscore_standardizes (s : ndarray1) :
  all_finite (len s) (at1 s) = true ->
  (exists i j, (i < len s)%nat /\ (j < len s)%nat /\ at1 s i <> at1 s j) ->
  np_mean (BTNR.zscore s) = Fin 0 /\ np_std (BTNR.zscore s) = Fin 1.
Proof.
  intros hf [i [j [hi [hj ne]]]].
  assert (fin : forall k, (k < len s)%nat -> at1 s k = Fin (real_of (at1 s k))).
  { intros k hk. destruct (all_finite_elim _ _ k hf hk) as [r ->]. reflexivity. }
  assert (nz : len s <> 0%nat) by lia.
  apply (zs_standard s (fun k => real_of (at1 s k)) fin nz).
  apply (zs_V_pos s (fun k => real_of (at1 s k)) nz i j hi hj).
  intro e. apply ne. rewrite (fin i hi), (fin j hj). now f_equal.
Qed.

Lemma zscore_standardizes_witness :
  np_mean (BTNR.zscore spread_scores) = Fin 0 /\
  np_std (BTNR.zscore spread_scores) = Fin 1.
Proof.
  apply (zscore_standardizes spread_scores eq_refl).
  exists 0%nat, 1%nat. split; [simpl; lia |]. split; [simpl; lia |].
  cbn [at1 spread_scores INR]. intro h. injection h as h. lra.
Defined.

Lemma symmetric_zscore_nan (wm : ndarray2) (kw : kwargs) (fuel : nat) :
  count_matrix wm -> symmetric wm -> (2 <= rows wm)%nat ->
  truthy (BTNR.zscore_output kw) = true ->
  BTNR.fit wm kw (S fuel) = Ok (mk_result (repeat NaN (rows wm)) None).
Proof.
  intros hc hs two on.
  assert (nz : rows wm <> 0%nat) by lia.
  rewrite (btnr_symmetric_fit wm kw fuel hc hs nz), on.
  f_equal. f_equal.
  set (raw := BTNR.raw_scores wm (sym_state wm)).
  assert (hraw : forall i, (i < len raw)%nat -> at1 raw i = Fin 0).
  { intros i _. unfold raw. cbn [at1 BTNR.raw_scores].
    destruct (Nat.eqb i (BTNR.n wm - 1)); [reflexivity |].
    now apply sym_state_gamma. }
  assert (hlen : len raw = rows wm) by reflexivity.
  unfold tolist. change (len (BTNR.zscore raw)) with (len raw). rewrite hlen.
  transitivity (map (fun _ : nat => NaN) (seq 0 (rows wm))).
  - apply map_ext_in. intros i hi. apply in_seq in hi.
    assert (hne : len raw <> 0%nat) by (rewrite hlen; exact nz).
    apply (zs_constant raw (fun _ => 0) hraw hne 0 i); [reflexivity | lia].
  - rewrite map_const_repeat, length_seq. reflexivity.
Qed.

(** X8.  Z-scoring a tie divides zero by zero: on a symmetric matrix of
    counts (at least two items) with [zscore_output] true, BTNR converges and
    returns [NaN] for every item. *)
Theorem btnr_zscore_of_tie_is_nan (wm : ndarray2) (kw : kwargs) (fuel : nat) :
  count_matrix wm -> symmetric wm -> (2 <= rows wm)%nat ->
  truthy (BTNR.zscore_output kw) = true ->
  BTNR.fit wm kw (S fuel) = Ok (mk_result (repeat NaN (rows wm)) None).
Proof.
  intros hc hs two on. now apply symmetric_zscore_nan.
Qed.

Lemma btnr_zscore_of_tie_is_nan_witness :
  BTNR.fit pair_matrix [("zscore_output"%string, PyBool true)] 1 =
    Ok (mk_result (repeat NaN (rows pair_matrix)) None).
Proof.
  apply (btnr_zscore_of_tie_is_nan pair_matrix
           [("zscore_output"%string, PyBool true)] 0
           pair_counts pair_symmetric).
  - simpl. lia.
  - reflexivity.
Defined.

(** ** BTMLE: items without wins, matrices without comparisons *)

Lemma rsum_ge_term (k : nat) (g : nat -> R) (i : nat) :
  (forall j, (j < k)%nat -> 0 <= g j) -> (i < k)%nat -> g i <= Num.rsum k g.
Proof.
  induction k as [| k ih]; intros h hi; [lia |].
  cbn [Num.rsum].
  assert (0 <= g k) by (apply h; lia).
  assert (0 <= Num.rsum k g) by (apply rsum_nonneg; intros j hj; apply h; lia).
  destruct (Nat.eq_dec i k) as [-> | ne]; [lra |].
  assert (g i <= Num.rsum k g) by (apply ih; [intros j hj; apply h; lia | lia]).
  lra.
Qed.

Lemma norm_ge_entry (a : ndarray1) (r g : R) (i : nat) :
  linalg_norm a = Ok (Fin r) -> (i < len a)%nat -> at1 a i = Fin g ->
  0 <= r /\ g * g <= r * r.
Proof.
  intros hn hi hg.
  destruct (linalg_norm_ok a _ hn) as [hfin _].
  assert (hall : forall j, (j < len a)%nat -> at1 a j = Fin (real_of (at1 a j))).
  { intros j hj. destruct (hfin j hj) as [x ->]. reflexivity. }
  rewrite (linalg_norm_fin a (fun j => real_of (at1 a j)) hall) in hn.
  injection hn as <-.
  set (t := Num.rsum (len a) (fun j => real_of (at1 a j) * real_of (at1 a j))).
  assert (ht : 0 <= t) by (apply rsum_nonneg; intros j _; apply sq_nonneg).
  split; [apply sqrt_pos |].
  rewrite (sqrt_sqrt t ht).
  pose proof (rsum_ge_term (len a)
                (fun j => real_of (at1 a j) * real_of (at1 a j)) i
                (fun j _ => sq_nonneg _) hi) as hle.
  cbn beta in hle. rewrite hg in hle. exact hle.
Qed.

Section Winless.

Variable alpha : ndarray2.
Variable i : nat.
Hypothesis counts : count_matrix alpha.
Hypothesis item : (i < rows alpha)%nat.
Hypothesis no_wins : forall j, (j < rows alpha)%nat -> at2 alpha i j = Fin 0.
Hypothesis not_huge : INR (rows alpha) < 100000000.

Lemma winless_unnormalized (x : R) :
  BTMLE.unnormalized alpha (BTMLE.p0 alpha) i = Fin x -> x = 0.
Proof.
  unfold BTMLE.unnormalized, BTMLE.row_total, BTMLE.M.
  rewrite (sum_upto_fin _ (fun j => at2 alpha i j) (fun _ => 0) no_wins).
  rewrite rsum_zero by reflexivity.
  intro h. apply div_fin_inv in h.
  destruct h as [[a [b [ha [_ [_ ->]]]]] | [a [_ [_ ->]]]]; [| reflexivity].
  injection ha as <-. unfold Rdiv. apply Rmult_0_l.
Qed.

Lemma winless_update (r : R) :
  BTMLE.update alpha (BTMLE.p0 alpha) i = Fin r -> r = 0.
Proof.
  unfold BTMLE.update. intro h. apply div_fin_inv in h.
  destruct h as [[a [b [ha [_ [_ ->]]]]] | [a [_ [_ ->]]]]; [| reflexivity].
  rewrite (winless_unnormalized a ha). unfold Rdiv. apply Rmult_0_l.
Qed.

Lemma winless_first_pass (st : BTMLE.state) :
  BTMLE.body alpha (BTMLE.init alpha) = Ok st ->
  BTMLE.p st i = Fin 0 /\ Num.gtb (BTMLE.change st) DELTA_THR = true.
Proof.
  unfold BTMLE.body. cbn [BTMLE.p BTMLE.init BTMLE.iteration]. intro h.
  destruct (linalg_norm
              (mk1 (BTMLE.M alpha)
                 (fun k => Num.sub (BTMLE.update alpha (BTMLE.p0 alpha) k)
                                   (BTMLE.p0 alpha k)))) as [c | e |] eqn:hn;
    try discriminate.
  cbn [bind] in h.
  destruct (linalg_norm (mk1 1 (fun _ => c))) as [c' | e |]; try discriminate.
  cbn [bind] in h. injection h as <-. cbn [BTMLE.p BTMLE.change].
  destruct (linalg_norm_ok _ _ hn) as [hfin [r [-> hr]]].
  destruct (hfin i item) as [d hd]. cbn [at1] in hd.
  destruct (sub_fin_inv _ _ _ hd) as [u [v [hu hv]]].
  pose proof (winless_update u hu) as ->.
  split; [exact hu |].
  assert (hv' : v = 1 / INR (rows alpha) * 1).
  { unfold BTMLE.p0, BTMLE.M in hv. cbn [Num.mul] in hv. now injection hv as <-. }
  assert (hm : 0 < INR (rows alpha)) by (apply lt_0_INR; lia).
  assert (hinv : / 100000000 < / INR (rows alpha))
    by (apply Rinv_lt_contravar; [nra | exact not_huge]).
  assert (hentry : at1 (mk1 (BTMLE.M alpha)
                          (fun k => Num.sub (BTMLE.update alpha (BTMLE.p0 alpha) k)
                                            (BTMLE.p0 alpha k))) i =
                   Fin (0 + - v)).
  { cbn [at1]. rewrite hu, hv. reflexivity. }
  destruct (norm_ge_entry _ r (0 + - v) i hn item hentry) as [hr0 hsq].
  apply gtb_thr_true. subst v.
  assert (0 < / INR (rows alpha)) by now apply Rinv_0_lt_compat.
  nra.
Qed.

Lemma winless_no_next_pass (st st' : BTMLE.state) :
  BTMLE.p st i = Fin 0 -> BTMLE.body alpha st <> Ok st'.
Proof.
  intros hp hb. destruct (body_ok alpha st st' hb) as [_ [_ [hfin _]]].
  destruct (hfin i item) as [r hr].
  rewrite (update_nan_of_zero alpha (BTMLE.p st) i item (no_wins i item) hp) in hr.
  discriminate.
Qed.

Lemma winless_reachable (st : BTMLE.state) :
  btmle_reachable alpha st ->
  Num.gtb (BTMLE.change st) DELTA_THR = true /\
  (st = BTMLE.init alpha \/ BTMLE.p st i = Fin 0).
Proof.
  intro hr. induction hr as [| st st' hr [_ [-> | hz]] hg hb].
  - split; [apply init_change_large | now left].
  - destruct (winless_first_pass st' hb) as [hp hc]. split; [exact hc | now right].
  - exfalso. exact (winless_no_next_pass st st' hz hb).
Qed.

Lemma winless_never_returns (kw : kwargs) (fuel : nat) (r : result) :
  BTMLE.fit alpha kw fuel <> Ok r.
Proof.
  intro h. destruct (btmle_fit_ok alpha kw fuel r h) as [_ [_ [st [hl _]]]].
  destruct (loop_reachable alpha fuel _ st (reach_init alpha) hl) as [hr hg].
  destruct (winless_reachable st hr) as [hg' _]. congruence.
Qed.

End Winless.

(** X9.  BTMLE needs every item to have won at least once: when some item of
    a matrix of counts (fewer than 10^8 items) has no wins, no BTMLE call
    returns a result, whatever the options and however long it runs.  Either
    a pass already fails, or after the first pass that item's entry of [p] is
    zero, the loop goes on, and the next pass divides zero by zero. *)
Theorem btmle_never_returns_without_wins
  (alpha : ndarray2) (i : nat) (kw : kwargs) (fuel : nat) (r : result) :
  count_matrix alpha -> (i < rows alpha)%nat ->
  (forall j, (j < rows alpha)%nat -> at2 alpha i j = Fin 0) ->
  INR (rows alpha) < 100000000 ->
  BTMLE.fit alpha kw fuel <> Ok r.
Proof.
  intros hc hi hz hm. now apply (winless_never_returns alpha i).
Qed.

Lemma btmle_never_returns_without_wins_witness :
  BTMLE.fit sweep_matrix [] 5 <> Ok (mk_result [] None).
Proof.
  apply (btmle_never_returns_without_wins sweep_matrix 2 [] 5 _ sweep_counts).
  - simpl. lia.
  - intros j hj. upto3 j hj; reflexivity.
  - simpl. lra.
Defined.

Lemma zero_matrix_raises (alpha : ndarray2) (kw : kwargs) (fuel : nat) :
  rows alpha = cols alpha -> rows alpha <> 0%nat ->
  (forall i j, (i < rows alpha)%nat -> (j < rows alpha)%nat ->
               at2 alpha i j = Fin 0) ->
  BTMLE.fit alpha kw (S fuel) = Raise ValueError.
Proof.
  intros sq nz hz.
  assert (h0 : (0 < rows alpha)%nat) by lia.
  assert (hu : BTMLE.unnormalized alpha (BTMLE.p0 alpha) 0 = NaN).
  { unfold BTMLE.unnormalized, BTMLE.row_total, BTMLE.M.
    rewrite (sum_upto_fin _ (fun j => at2 alpha 0 j) (fun _ => 0))
      by (intros j hj; now apply hz).
    rewrite (sum_upto_fin _ _ (fun _ => (0 + 0) / (1 / INR (rows alpha) * 1 +
                                                   1 / INR (rows alpha) * 1))).
    - apply div_zero_zero_gen.
      + now apply rsum_zero.
      + apply rsum_zero. intros j _. unfold Rdiv. lra.
    - intros j hj. unfold BTMLE.n, BTMLE.pp, BTMLE.p0, BTMLE.M.
      rewrite (hz 0%nat j h0 hj), (hz j 0%nat hj h0). cbn [Num.add Num.mul].
      apply div_fin.
      assert (0 < / INR (rows alpha)) by (apply Rinv_0_lt_compat, lt_0_INR; lia).
      lra. }
  assert (hb : BTMLE.body alpha (BTMLE.init alpha) = Raise ValueError).
  { unfold BTMLE.body, linalg_norm. cbn [BTMLE.p BTMLE.init len at1].
    rewrite (all_finite_not _ _ 0%nat); [reflexivity | exact h0 |].
    unfold BTMLE.update. rewrite hu. reflexivity. }
  unfold BTMLE.fit. apply Nat.eqb_eq in sq. rewrite sq. cbn [py_assert bind].
  apply Nat.eqb_neq in nz. unfold BTMLE.M at 1. rewrite nz. cbn [bind].
  rewrite btmle_loop_eq, init_change_large, hb. reflexivity.
Qed.

(** X10.  Without a single comparison BTMLE fails in its first pass: on an
    all-zero square matrix with at least one item every entry of [p] becomes
    [0/0] and [linalg.norm] raises [ValueError]. *)
Theorem btmle_no_comparisons_raise (alpha : ndarray2) (kw : kwargs) (fuel : nat) :
  rows alpha = cols alpha -> rows alpha <> 0%nat ->
  (forall i j, (i < rows alpha)%nat -> (j < rows alpha)%nat ->
               at2 alpha i j = Fin 0) ->
  BTMLE.fit alpha kw (S fuel) = Raise ValueError.
Proof.
  intros sq nz hz. now apply zero_matrix_raises.
Qed.

Lemma btmle_no_comparisons_raise_witness :
  BTMLE.fit (zero_matrix 3) [] 1 = Raise ValueError.
Proof.
  apply (btmle_no_comparisons_raise (zero_matrix 3) [] 0 eq_refl).
  - simpl. lia.
  - reflexivity.
Defined.

(** X11.  BTMLE scores are logarithms of probabilities: every returned score
    is [-inf] or a finite number that is at most zero. *)
Theorem btmle_scores_not_positive
  (alpha : ndarray2) (kw : kwargs) (fuel : nat) (r : result) (s : num) :
  count_matrix alpha -> BTMLE.fit alpha kw fuel = Ok r ->
  In s (quality_scores r) ->
  s = NInf \/ exists x, s = Fin x /\ x <= 0.
Proof.
  intros hc h hin.
  destruct (btmle_fit_ok alpha kw fuel r h) as [_ [nz [st [hl hf]]]].
  destruct (finish_ok alpha st r hf) as [cova [_ [hq _]]].
  destruct (loop_result alpha hc fuel st nz hl) as [_ [_ [hnn hsum]]].
  rewrite hq in hin. unfold tolist in hin. cbn [len at1] in hin.
  apply in_map_iff in hin. destruct hin as [i [<- hi]]. apply in_seq in hi.
  assert (hi' : (i < rows alpha)%nat) by lia.
  assert (hall : forall k, (k < rows alpha)%nat ->
                   BTMLE.p st k = Fin (real_of (BTMLE.p st k)) /\
                   0 <= real_of (BTMLE.p st k)).
  { intros k hk. destruct (hnn k hk) as [q [-> hq0]]. now split. }
  rewrite (sum_upto_fin _ _ (fun k => real_of (BTMLE.p st k))) in hsum
    by (intros k hk; apply (hall k hk)).
  injection hsum as hsum.
  pose proof (rsum_ge_term (rows alpha) (fun k => real_of (BTMLE.p st k)) i
                (fun k hk => proj2 (hall k hk)) hi') as hle.
  cbn beta in hle. rewrite hsum in hle.
  destruct (hnn i hi') as [q [eq h0]].
  rewrite eq in hle. cbn [real_of] in hle. rewrite eq.
  destruct (Req_dec_T q 0) as [e | ne].
  - left. rewrite e. apply log_zero.
  - right. rewrite log_fin by lra. eexists. split; [reflexivity |].
    destruct (Req_dec_T q 1) as [e1 | ne1].
    + rewrite e1, ln_1. lra.
    + apply Rlt_le, ln_neg; lra.
Qed.

Lemma btmle_scores_length (alpha : ndarray2) (kw : kwargs) (fuel : nat) (r : result) :
  BTMLE.fit alpha kw fuel = Ok r -> List.length (quality_scores r) = rows alpha.
Proof.
  intro h. destruct (btmle_fit_ok alpha kw fuel r h) as [_ [_ [st [_ hf]]]].
  destruct (finish_ok alpha st r hf) as [cova [_ [hq _]]].
  rewrite hq. apply length_tolist.
Qed.

Lemma btmle_scores_not_positive_witness :
  nth 0 (quality_scores (returned (BTMLE.fit pair_matrix [] 1))) NaN = NInf \/
  exists x,
    nth 0 (quality_scores (returned (BTMLE.fit pair_matrix [] 1))) NaN = Fin x /\
    x <= 0.
Proof.
  destruct (btmle_symmetric_returns pair_matrix [] 0 pair_counts pair_symmetric
              pair_wins ltac:(simpl; lia)) as [r hr].
  pose proof (returned_ok _ r hr) as hok.
  apply (btmle_scores_not_positive pair_matrix [] 1 _ _ pair_counts hok).
  apply nth_In.
  rewrite (btmle_scores_length pair_matrix [] 1 _ hok). simpl. lia.
Defined.

(** ** The Thurstone objective and a common shift *)

(** X12.  The Thurstone objective depends on score differences only: for a
    finite vector [v] and any number [c], [log_likelihood_function(v + c)]
    equals [log_likelihood_function(v)]. *)
Theorem thurstone_objective_shift_invariant
  (v : ndarray1) (alpha : ndarray2) (M : nat) (c : R) :
  (forall i, (i < M)%nat -> exists x, at1 v i = Fin x) ->
  Thurstone.log_likelihood_function (shifted v c) alpha M =
  Thurstone.log_likelihood_function v alpha M.
Proof.
  intro hv. unfold Thurstone.log_likelihood_function.
  destruct (Nat.eqb M 0); [reflexivity |].
  f_equal. unfold Thurstone.sum2.
  apply sum_upto_ext. intros i hi. apply sum_upto_ext. intros j hj.
  assert (hd : Num.sub (at1 (shifted v c) j) (at1 (shifted v c) i) =
               Num.sub (at1 v j) (at1 v i)).
  { destruct (hv i hi) as [xi ei]. destruct (hv j hj) as [xj ej].
    cbn [at1 shifted]. rewrite ei, ej. cbn [Num.add Num.sub Num.neg].
    f_equal. lra. }
  rewrite hd. reflexivity.
Qed.

Lemma thurstone_objective_shift_invariant_witness :
  Thurstone.log_likelihood_function (shifted (Thurstone.v0 one_win) 5) one_win 2 =
  Thurstone.log_likelihood_function (Thurstone.v0 one_win) one_win 2.
Proof.
  apply (thurstone_objective_shift_invariant (Thurstone.v0 one_win) one_win 2 5).
  intros i _. exists 0. reflexivity.
Defined.

(** ** BTMLE on two items *)

Lemma two_quot_first (a b q0 q1 : R) :
  0 < a -> 0 < b -> 0 < q0 -> 0 < q1 ->
  (0 + 0 + a) / (0 + (0 + 0) / (q0 + q0) + (a + b) / (q1 + q0)) =
  a * (q0 + q1) / (a + b).
Proof.
  intros.
  replace (0 + (0 + 0) / (q0 + q0) + (a + b) / (q1 + q0))
    with ((a + b) / (q1 + q0)) by (field; lra).
  field. lra.
Qed.

Lemma two_quot_second (a b q0 q1 : R) :
  0 < a -> 0 < b -> 0 < q0 -> 0 < q1 ->
  (0 + b + 0) / (0 + (b + a) / (q0 + q1) + (0 + 0) / (q1 + q1)) =
  b * (q0 + q1) / (a + b).
Proof.
  intros.
  replace (0 + (b + a) / (q0 + q1) + (0 + 0) / (q1 + q1))
    with ((b + a) / (q0 + q1)) by (field; lra).
  field. lra.
Qed.

Lemma two_share_first (a b q0 q1 : R) :
  0 < a -> 0 < b -> 0 < q0 -> 0 < q1 ->
  a * (q0 + q1) / (a + b) /
  (0 + a * (q0 + q1) / (a + b) + b * (q0 + q1) / (a + b)) = a / (a + b).
Proof.
  intros.
  replace (0 + a * (q0 + q1) / (a + b) + b * (q0 + q1) / (a + b))
    with (q0 + q1) by (field; lra).
  field. lra.
Qed.

Lemma two_share_second (a b q0 q1 : R) :
  0 < a -> 0 < b -> 0 < q0 -> 0 < q1 ->
  b * (q0 + q1) / (a + b) /
  (0 + a * (q0 + q1) / (a + b) + b * (q0 + q1) / (a + b)) = b / (a + b).
Proof.
  intros.
  replace (0 + a * (q0 + q1) / (a + b) + b * (q0 + q1) / (a + b))
    with (q0 + q1) by (field; lra).
  field. lra.
Qed.

Section TwoItems.

Variables a b : R.
Hypothesis a_pos : 0 < a.
Hypothesis b_pos : 0 < b.

Let w (k : nat) : R := nth k [a / (a + b); b / (a + b)] 0.

Lemma two_counts : count_matrix (two_items a b).
Proof.
  split; [reflexivity |]. intros i j hi hj.
  destruct i as [| [| i]]; destruct j as [| [| j]];
    try (exfalso; simpl in hi, hj; lia);
    simpl; eexists; (split; [reflexivity | lra]).
Qed.

Lemma two_w_pos (k : nat) : (k < 2)%nat -> 0 < w k.
Proof.
  intro hk. destruct k as [| [| k]]; [| | lia]; unfold w; cbn [nth];
    apply div_pos; lra.
Qed.

(** From any positive vector one pass leads to the win shares. *)
Lemma two_update (p : nat -> num) (q : nat -> R) (k : nat) :
  (forall i, (i < rows (two_items a b))%nat -> p i = Fin (q i) /\ 0 < q i) ->
  (k < 2)%nat ->
  BTMLE.update (two_items a b) p k = Fin (w k).
Proof.
  intros hp hk.
  assert (h0 : 0 < q 0%nat) by (apply hp; simpl; lia).
  assert (h1 : 0 < q 1%nat) by (apply hp; simpl; lia).
  assert (hu : forall i, (i < rows (two_items a b))%nat ->
            BTMLE.unnormalized (two_items a b) p i =
            Fin (nth i [a * (q 0%nat + q 1%nat) / (a + b);
                        b * (q 0%nat + q 1%nat) / (a + b)] 0)).
  { intros i hi.
    rewrite (unnormalized_fin (two_items a b) p q i two_counts hp hi).
    - f_equal. destruct i as [| [| i]]; [| | exfalso; simpl in hi; lia];
        cbv [Num.rsum rows two_items of_rows at2 real_of nth];
        [apply two_quot_first | apply two_quot_second]; assumption.
    - destruct i as [| [| i]]; [| | exfalso; simpl in hi; lia];
        cbv [Num.rsum rows two_items of_rows at2 real_of nth];
        apply Rgt_not_eq;
        [ replace (0 + (0 + 0) / (q 0%nat + q 0%nat) + (a + b) / (q 1%nat + q 0%nat))
            with ((a + b) / (q 1%nat + q 0%nat)) by (field; lra)
        | replace (0 + (b + a) / (q 0%nat + q 1%nat) + (0 + 0) / (q 1%nat + q 1%nat))
            with ((b + a) / (q 0%nat + q 1%nat)) by (field; lra) ];
        apply div_pos; lra. }
  rewrite (update_fin (two_items a b) p _ k hu).
  - f_equal. destruct k as [| [| k]]; [| | lia];
      unfold w; cbv [Num.rsum rows two_items of_rows nth];
      [apply two_share_first | apply two_share_second]; assumption.
  - cbv [Num.rsum rows two_items of_rows nth]. apply Rgt_not_eq.
    replace (0 + a * (q 0%nat + q 1%nat) / (a + b) +
             b * (q 0%nat + q 1%nat) / (a + b))
      with (q 0%nat + q 1%nat) by (field; lra).
    lra.
  - exact hk.
Qed.

Lemma two_p0 (i : nat) :
  (i < rows (two_items a b))%nat ->
  BTMLE.p0 (two_items a b) i = Fin (1 / INR 2 * 1) /\ 0 < 1 / INR 2 * 1.
Proof. intros _. split; [reflexivity | simpl; lra]. Qed.

Lemma two_first (k : nat) :
  (k < 2)%nat ->
  BTMLE.update (two_items a b) (BTMLE.p0 (two_items a b)) k = Fin (w k).
Proof. apply (two_update _ (fun _ => 1 / INR 2 * 1)), two_p0. Qed.

Lemma two_first_entries (i : nat) :
  (i < rows (two_items a b))%nat ->
  BTMLE.update (two_items a b) (BTMLE.p0 (two_items a b)) i = Fin (w i) /\ 0 < w i.
Proof. intro hi. split; [now apply two_first | now apply two_w_pos]. Qed.

Lemma two_second (k : nat) :
  (k < 2)%nat ->
  BTMLE.update (two_items a b)
    (BTMLE.update (two_items a b) (BTMLE.p0 (two_items a b))) k = Fin (w k).
Proof. apply (two_update _ w), two_first_entries. Qed.

(** The statements after the loop, in a state whose [p] holds the win
    shares. *)
Lemma two_finish (st : BTMLE.state) :
  (forall k, (k < 2)%nat -> BTMLE.p st k = Fin (w k)) ->
  exists r,
    BTMLE.finish (two_items a b) st = Ok r /\
    quality_scores r = [Fin (ln (a / (a + b))); Fin (ln (b / (a + b)))].
Proof.
  intro hp. unfold BTMLE.finish, numpy_pinv, pinv_with.
  rewrite bordered_all_finite.
  - cbn [bind]. eexists. split; [reflexivity |].
    cbn [quality_scores]. unfold tolist, BTMLE.M.
    cbn [len at1 rows two_items of_rows seq map].
    rewrite (hp 0%nat), (hp 1%nat) by lia.
    pose proof (two_w_pos 0 ltac:(lia)). pose proof (two_w_pos 1 ltac:(lia)).
    rewrite !log_fin by assumption. reflexivity.
  - apply two_counts.
  - intros k hk. exists (w k). split; [now apply hp | now apply two_w_pos].
Qed.

Lemma two_fit (kw : kwargs) (fuel : nat) :
  exists r,
    BTMLE.fit (two_items a b) kw (S (S fuel)) = Ok r /\
    quality_scores r = [Fin (ln (a / (a + b))); Fin (ln (b / (a + b)))].
Proof.
  set (alpha := two_items a b).
  assert (hb1 : exists c1,
             BTMLE.body alpha (BTMLE.init alpha) =
             Ok (BTMLE.mk_state 1 (BTMLE.update alpha (BTMLE.p0 alpha)) (Fin c1))).
  { unfold BTMLE.body. cbn [BTMLE.p BTMLE.init BTMLE.iteration].
    rewrite (linalg_norm_fin _ (fun k => w k + - (1 / INR 2 * 1))).
    - cbn [bind]. eexists.
      rewrite (linalg_norm_fin (mk1 1 (fun _ => Fin _)) (fun _ => _))
        by reflexivity.
      reflexivity.
    - intros k hk. cbn [len at1] in *. unfold alpha.
      rewrite (two_first k hk). reflexivity. }
  destruct hb1 as [c1 hb1].
  unfold BTMLE.fit. cbn [rows cols alpha two_items of_rows Nat.eqb py_assert bind].
  unfold BTMLE.M. cbn [rows two_items of_rows Nat.eqb bind].
  fold alpha. rewrite btmle_loop_eq, init_change_large, hb1. cbn [bind].
  rewrite btmle_loop_eq.
  destruct (Num.gtb (BTMLE.change
                       (BTMLE.mk_state 1 (BTMLE.update alpha (BTMLE.p0 alpha))
                          (Fin c1))) DELTA_THR) eqn:hg.
  - assert (hb2 : BTMLE.body alpha
                    (BTMLE.mk_state 1 (BTMLE.update alpha (BTMLE.p0 alpha)) (Fin c1)) =
                  Ok (BTMLE.mk_state 2
                        (BTMLE.update alpha (BTMLE.update alpha (BTMLE.p0 alpha)))
                        (Fin 0))).
    { unfold BTMLE.body. cbn [BTMLE.p BTMLE.iteration].
      rewrite (linalg_norm_fin _ (fun _ => 0)).
      - cbn [len]. rewrite rsum_zero by (intros; lra). rewrite sqrt_0.
        cbn [bind].
        rewrite (linalg_norm_fin (mk1 1 (fun _ => Fin 0)) (fun _ => 0))
          by reflexivity.
        reflexivity.
      - intros k hk. cbn [len at1] in *. unfold alpha.
        rewrite (two_second k hk), (two_first k hk).
        cbn [Num.sub Num.neg Num.add]. f_equal. lra. }
    rewrite hb2. cbn [bind]. rewrite btmle_loop_eq. cbn [BTMLE.change].
    rewrite gtb_thr_false by lra.
    cbn [bind]. apply two_finish. intros k hk. cbn [BTMLE.p].
    now apply two_second.
  - cbn [bind]. apply two_finish. intros k hk. cbn [BTMLE.p].
    now apply two_first.
Qed.

End TwoItems.

(** X13.  On two items BTMLE returns the textbook estimate: when the first
    item won [a > 0] times and the second [b > 0] times, every call with
    fuel for two passes returns the scores [log(a/(a+b))] and [log(b/(a+b))],
    whose difference is the log-odds [log(a/b)]. *)
Theorem btmle_two_items_closed_form (a b : R) (kw : kwargs) (fuel : nat) :
  0 < a -> 0 < b ->
  exists r,
    BTMLE.fit (two_items a b) kw (S (S fuel)) = Ok r /\
    quality_scores r = [Fin (ln (a / (a + b))); Fin (ln (b / (a + b)))] /\
    ln (a / (a + b)) - ln (b / (a + b)) = ln (a / b).
Proof.
  intros ha hb. destruct (two_fit a b ha hb kw fuel) as [r [hr hq]].
  exists r. split; [exact hr |]. split; [exact hq |].
  assert (hab : 0 < a + b) by lra.
  unfold Rdiv. rewrite !ln_mult, !ln_Rinv; try lra;
    try (apply Rinv_0_lt_compat; lra).
Qed.

Lemma btmle_two_items_closed_form_witness :
  exists r,
    BTMLE.fit (two_items 3 1) [] 2 = Ok r /\
    quality_scores r = [Fin (ln (3 / (3 + 1))); Fin (ln (1 / (3 + 1)))] /\
    ln (3 / (3 + 1)) - ln (1 / (3 + 1)) = ln (3 / 1).
Proof.
  apply (btmle_two_items_closed_form 3 1 [] 0); lra.
Defined.

(** ** BTNR on two items *)

Lemma two_gradient (a b : R) :
  0 < a -> 0 < b ->
  0 + 0 + a + - (0 + 0 + (a + b) * (a / b / (a / b + 1))) = 0.
Proof.
  intros ha hb.
  replace ((a + b) * (a / b / (a / b + 1))) with a; [lra |].
  assert (0 < a / b) by (apply div_pos; assumption).
  field. split; lra.
Qed.

Section TwoItemsNewton.

Variables a b : R.
Hypothesis a_pos : 0 < a.
Hypothesis b_pos : 0 < b.

Variable st : BTNR.state.
Hypothesis gamma_first : BTNR.gamma st 0 = Fin (ln (a / b)).
Hypothesis gamma_last : BTNR.gamma st 1 = Fin 0.
Hypothesis y_diagonal : BTNR.y st 0 0 = Fin 0.

Lemma newton_mask :
  BTNR.gind (two_items a b) 0 0 = false /\ BTNR.gind (two_items a b) 0 1 = true.
Proof.
  unfold BTNR.gind, BTNR.gm. cbn [at2 two_items of_rows nth Num.add].
  split; [apply gtb_fin_false | apply gtb_fin_true]; lra.
Qed.

Lemma newton_pi :
  BTNR.pi st 0 = Fin (a / b) /\ BTNR.pi st 1 = Fin 1.
Proof.
  unfold BTNR.pi. rewrite gamma_first, gamma_last. cbn [Num.exp].
  rewrite exp_0, exp_ln by (apply div_pos; assumption). now split.
Qed.

Lemma newton_rus : BTNR.rus_new (two_items a b) st 0 1 = Fin (a / b / (a / b + 1)).
Proof.
  unfold BTNR.rus_new. rewrite (proj2 newton_mask).
  rewrite (proj1 newton_pi), (proj2 newton_pi). cbn [Num.add].
  apply div_fin. assert (0 < a / b) by (apply div_pos; assumption). lra.
Qed.

Lemma newton_y_first :
  BTNR.y_first (two_items a b) st 0 0 = Fin 0 /\
  BTNR.y_first (two_items a b) st 0 1 = Fin ((a + b) * (a / b / (a / b + 1))).
Proof.
  unfold BTNR.y_first. rewrite (proj1 newton_mask), (proj2 newton_mask).
  split; [exact y_diagonal |]. rewrite newton_rus.
  unfold BTNR.gm. cbn [at2 two_items of_rows nth Num.add Num.mul]. reflexivity.
Qed.

Lemma newton_dL : BTNR.dL (two_items a b) st 0 = Fin 0.
Proof.
  unfold BTNR.dL, BTNR.d2Q, BTNR.wins, BTNR.n.
  cbn [rows two_items of_rows Num.sum_upto at2 nth].
  fold (two_items a b).
  rewrite (proj1 newton_y_first), (proj2 newton_y_first).
  cbn [Num.add Num.neg]. f_equal. now apply two_gradient.
Qed.

Lemma newton_y_second (k : nat) :
  (k < 2)%nat -> exists r, BTNR.y_second (two_items a b) st 0 k = Fin r.
Proof.
  intro hk. unfold BTNR.y_second.
  destruct k as [| [| k]]; [| | lia].
  - rewrite (proj1 newton_mask), (proj1 newton_y_first). now exists 0.
  - rewrite (proj2 newton_mask), (proj2 newton_y_first), newton_rus.
    cbn [Num.sub Num.neg Num.add Num.mul]. eexists. reflexivity.
Qed.

Lemma newton_d2L_finite : all_finite2 (BTNR.d2L (two_items a b) st) = true.
Proof.
  apply all_finite2_true. cbn [rows cols BTNR.d2L at2].
  unfold BTNR.nmo, BTNR.n. cbn [rows two_items of_rows Nat.sub].
  intros i j hi hj. assert (i = 0%nat) by lia. assert (j = 0%nat) by lia. subst.
  fold (two_items a b). rewrite (proj1 newton_mask). cbn [Nat.eqb].
  rewrite (sum_upto_fin 2 _
             (fun k => real_of (BTNR.y_second (two_items a b) st 0 k))).
  - reflexivity.
  - intros k hk. destruct (newton_y_second k hk) as [r ->]. reflexivity.
Qed.

Lemma newton_change (P : ndarray2) (k : nat) :
  (forall i j, exists r, at2 P i j = Fin r) ->
  at1 (BTNR.change_new (two_items a b) P st) k = Fin 0.
Proof.
  intro hP. cbn [at1 BTNR.change_new].
  unfold BTNR.nmo, BTNR.n. cbn [rows two_items of_rows Nat.sub].
  destruct (Nat.ltb k 1) eqn:hk; [| reflexivity].
  apply Nat.ltb_lt in hk. assert (k = 0%nat) by lia. subst k.
  cbn [Num.sum_upto]. fold (two_items a b). rewrite newton_dL.
  destruct (hP 0%nat 0%nat) as [r ->]. cbn [Num.mul Num.add]. f_equal. lra.
Qed.

Lemma newton_step :
  exists st',
    BTNR.body (two_items a b) st = Ok st' /\
    BTNR.gamma st' 0 = Fin (ln (a / b)) /\ BTNR.gamma st' 1 = Fin 0 /\
    forall fuel, BTNR.loop (two_items a b) fuel st' = Ok st'.
Proof.
  unfold BTNR.body, scipy_pinv, pinv_with. rewrite newton_d2L_finite.
  cbn [bind].
  set (P := mk2 _ _ _).
  assert (hP : forall i j, exists r, at2 P i j = Fin r)
    by (intros i j; unfold P; cbn [at2]; eexists; reflexivity).
  assert (hn : linalg_norm (BTNR.change_new (two_items a b) P st) = Ok (Fin 0)).
  { rewrite (linalg_norm_fin _ (fun _ => 0))
      by (intros k _; now apply newton_change).
    rewrite rsum_zero by (intros; lra). now rewrite sqrt_0. }
  rewrite hn. cbn [bind]. eexists. split; [reflexivity |].
  cbn [BTNR.gamma].
  rewrite !(newton_change P _ hP), gamma_first, gamma_last.
  cbn [Num.sub Num.neg Num.add].
  split; [f_equal; lra |]. split; [f_equal; lra |].
  intro fuel. rewrite btnr_loop_eq. cbn [BTNR.change]. rewrite hn. cbn [bind].
  now rewrite gtb_thr_false by lra.
Qed.

End TwoItemsNewton.

(** X14.  The Newton-Raphson pass has the textbook estimate as a fixed
    point: on two items with [a > 0] and [b > 0] wins, a pass started at
    [gamma = [log(a/b), 0]] (with [y] zero on the diagonal, as in every state
    the loop reaches) finds a zero gradient, leaves [gamma] where it is, and
    the loop stops there. *)
Theorem btnr_two_items_fixed_point (a b : R) (st : BTNR.state) :
  0 < a -> 0 < b ->
  BTNR.gamma st 0 = Fin (ln (a / b)) -> BTNR.gamma st 1 = Fin 0 ->
  BTNR.y st 0 0 = Fin 0 ->
  BTNR.dL (two_items a b) st 0 = Fin 0 /\
  exists st',
    BTNR.body (two_items a b) st = Ok st' /\
    BTNR.gamma st' 0 = Fin (ln (a / b)) /\ BTNR.gamma st' 1 = Fin 0 /\
    forall fuel, BTNR.loop (two_items a b) fuel st' = Ok st'.
Proof.
  intros ha hb h0 h1 hy. split.
  - now apply newton_dL.
  - now apply newton_step.
Qed.

Lemma btnr_two_items_fixed_point_witness :
  BTNR.dL (two_items 3 1) (btnr_state_at (ln (3 / 1))) 0 = Fin 0 /\
  exists st',
    BTNR.body (two_items 3 1) (btnr_state_at (ln (3 / 1))) = Ok st' /\
    BTNR.gamma st' 0 = Fin (ln (3 / 1)) /\ BTNR.gamma st' 1 = Fin 0 /\
    forall fuel, BTNR.loop (two_items 3 1) fuel st' = Ok st'.
Proof.
  apply (btnr_two_items_fixed_point 3 1 (btnr_state_at (ln (3 / 1))));
    try lra; reflexivity.
Defined.

(** ** A dataset without observations *)

(** X15.  With two or more items but not a single observation per pair
    ([dim2 = 0]) the aggregated matrix is zero: BTNR converges after one pass
    and returns a zero score for every item, while BTMLE raises [ValueError]
    in its first pass. *)
Theorem no_observations (arr : ndarray3) (fuel : nat) :
  dim0 arr = dim1 arr -> (2 <= dim0 arr)%nat -> dim2 arr = 0%nat ->
  BTNR._run_modeling arr [] (S fuel) =
    Ok (mk_result (repeat (Fin 0) (dim0 arr)) None) /\
  BTMLE._run_modeling arr [] (S fuel) = Raise ValueError.
Proof.
  intros sq two h2.
  assert (nz : dim0 arr <> 0%nat) by lia.
  assert (hz : forall i j, at2 (nansum_axis2 arr) i j = Fin 0).
  { intros i j. cbn [nansum_axis2 at2]. rewrite h2. reflexivity. }
  assert (hc : count_matrix (nansum_axis2 arr)).
  { split; [exact sq |]. intros i j _ _. exists 0. split; [apply hz | lra]. }
  assert (hs : symmetric (nansum_axis2 arr)).
  { intros i j _ _. now rewrite !hz. }
  split.
  - unfold BTNR._run_modeling.
    rewrite (btnr_symmetric_fit _ [] fuel hc hs nz).
    cbn [truthy BTNR.zscore_output kw_get].
    now rewrite (sym_raw_scores _ hc hs).
  - unfold BTMLE._run_modeling.
    apply (zero_matrix_raises (nansum_axis2 arr) [] fuel sq nz).
    intros i j _ _. apply hz.
Qed.

Lemma no_observations_witness :
  BTNR._run_modeling (const3 3 3 0 NaN) [] 1 =
    Ok (mk_result (repeat (Fin 0) 3) None) /\
  BTMLE._run_modeling (const3 3 3 0 NaN) [] 1 = Raise ValueError.
Proof.
  apply (no_observations (const3 3 3 0 NaN) 0 eq_refl); [simpl; lia | reflexivity].
Defined.

(** * Limits of the claims *)






(** C9, counterexample.  [pair_matrix] is a symmetric matrix of counts, yet
    with [zscore_output] true BTNR returns [nan] for both items, and [nan]
    is equal to nothing; on the symmetric matrix without items BTNR raises
    [ValueError] and returns no scores at all. *)
Lemma btnr_symmetric_not_always_equal :
  (count_matrix pair_matrix /\ symmetric pair_matrix /\
   exists r,
     BTNR.fit pair_matrix [("zscore_output"%string, PyBool true)] 1 = Ok r /\
     quality_scores r = [NaN; NaN] /\
     forall a b, In a (quality_scores r) -> In b (quality_scores r) ->
                 np_equal a b = false) /\
  (count_matrix (zero_matrix 0) /\ symmetric (zero_matrix 0) /\
   forall kw fuel, BTNR.fit (zero_matrix 0) kw fuel = Raise ValueError).
Proof.
  split.
  - split; [exact pair_counts |]. split; [exact pair_symmetric |].
    eexists. split.
    + apply (symmetric_zscore_nan pair_matrix _ 0 pair_counts pair_symmetric);
        [simpl; lia | reflexivity].
    + split; [reflexivity |].
      cbn [quality_scores rows pair_matrix of_rows repeat].
      intros a b [<- | [<- | []]] _; reflexivity.
  - split.
    + split; [reflexivity |]. intros i j hi _. cbn [rows zero_matrix] in hi. lia.
    + split; [intros i j hi _; cbn [rows zero_matrix] in hi; lia |].
      intros kw fuel. reflexivity.
Qed.
